(** * Test sharding in [jest.config.ts]

    A shallow embedding of the sharding logic of [jest.config.ts]:
    the shard registry [testShards], [normalizePattern],
    [configureShardingOrFallbackTo], [getMatchingShards] and
    [scheduleItems], together with the properties the specification
    states about them.

    Conventions of the embedding:
    - a JavaScript [number] that the code computes with is a [number]
      below: an integer, an infinity or NaN.  Lengths, indices and the
      [availableInstances] argument are integers ([Z]);
    - [undefined] is [None];
    - a [Record<string, ShardConfig>] is the list of its own entries in
      [Object.entries] order;
    - a thrown [Error] is the [Throw] result carrying the message. *)

From Stdlib Require Import Ascii String QArith.
From stdpp Require Import gmap strings list list_numbers pretty.

Local Open Scope Z_scope.

(** ** JavaScript numbers and array primitives *)

Module JS.

Inductive number : Type :=
| Num (z : Z)
| PosInf
| NegInf
| NaN.

(** [Math.ceil(a / b)] for integers [a] and [b]. *)
Definition ceilDiv (a b : Z) : number :=
  if b =? 0 then
    if a =? 0 then NaN else if 0 <? a then PosInf else NegInf
  else Num (- ((- a) `div` b)).

(** [a % b] for integers: the remainder has the sign of the dividend,
    and a zero divisor gives NaN. *)
Definition remainder (a b : Z) : number :=
  if b =? 0 then NaN else Num (a `rem` b).

(** [x === z] for an integer [z]. *)
Definition strictEq (x : number) (z : Z) : bool :=
  match x with
  | Num y => y =? z
  | _ => false
  end.

(** [i < x] for an integer [i]; every comparison with NaN is false. *)
Definition lt (i : Z) (x : number) : bool :=
  match x with
  | Num y => i <? y
  | PosInf => true
  | NegInf | NaN => false
  end.

(** [x - 1]. *)
Definition pred (x : number) : number :=
  match x with
  | Num y => Num (y - 1)
  | other => other
  end.

(** [Array.from({ length: len }, (_, idx) => f idx)]; a negative
    length is read as 0. *)
Definition arrayFrom {A} (len : Z) (f : Z → A) : list A :=
  f <$> seqZ 0 len.

(** The position a [slice] argument denotes in an array of length
    [len]: negative values count from the end, everything is clamped
    to [0..len], NaN is 0. *)
Definition relativeIndex (len : Z) (x : number) : Z :=
  match x with
  | Num z => if z <? 0 then Z.max (len + z) 0 else Z.min z len
  | PosInf => len
  | NegInf | NaN => 0
  end.

(** [l.slice(start, end)]; a missing or [undefined] argument is
    [None]. *)
Definition slice {A} (l : list A) (start end_ : option number) : list A :=
  let len := Z.of_nat (length l) in
  let k := from_option (relativeIndex len) 0 start in
  let final := from_option (relativeIndex len) len end_ in
  take (Z.to_nat (final - k)) (drop (Z.to_nat k) l).

End JS.

(** ** The partitioner: [scheduleItems] *)

Section ScheduleItems.
Context {T : Type}.

(** One turn of the [for] loop of [scheduleItems]; the state is the
    pair of [result] and [rest]. *)
Definition scheduleStep (partitionSizes : list JS.number)
    (st : list (list T) * list T) (idx : Z) : list (list T) * list T :=
  let '(result, rest) := st in
  let partitionSize := partitionSizes !! Z.to_nat idx in
  let partition := JS.slice rest (Some (JS.Num 0)) partitionSize in
  (<[Z.to_nat idx := partition]> result, JS.slice rest partitionSize None).

Definition scheduleItems (items : list T) (availableInstances : Z)
    : list (list T) :=
  let len := Z.of_nat (length items) in
  let numInstances := Z.min len availableInstances in
  let maxPerInstance := JS.ceilDiv len numInstances in
  let lighterInstancesIdx :=
    if JS.strictEq (JS.remainder len numInstances) 0
    then JS.Num numInstances
    else JS.remainder len numInstances in
  let partitionSizes :=
    JS.arrayFrom numInstances (λ idx,
      if JS.lt idx lighterInstancesIdx
      then maxPerInstance else JS.pred maxPerInstance) in
  let result : list (list T) := JS.arrayFrom numInstances (λ _, []) in
  let rest := JS.slice items None None in
  fst (foldl (scheduleStep partitionSizes) (result, rest)
         (seqZ 0 numInstances)).

End ScheduleItems.

(** ** Strings *)

(** [s.endsWith(suffix)]: some tail of [s] is [suffix]. *)
Fixpoint endsWith (s suffix : string) : bool :=
  if String.eqb s suffix then true
  else match s with
       | EmptyString => false
       | String _ s' => endsWith s' suffix
       end.

(** [s.startsWith('!')]. *)
Definition startsWithBang (s : string) : bool :=
  match s with
  | String ("!")%char _ => true
  | _ => false
  end.

(** [s.replace(/\.spec\.ts$/, replacement)]: the pattern is anchored at
    the end of the input, so the only possible match is a final
    [.spec.ts]; without one the string is returned as it is. *)
Fixpoint replaceSpecTs (s replacement : string) : string :=
  if String.eqb s ".spec.ts" then replacement
  else match s with
       | EmptyString => EmptyString
       | String c s' => String c (replaceSpecTs s' replacement)
       end.

(** ** The shard registry *)

(** The four optional fields of a coverage threshold. *)
Record Threshold : Type := mkThreshold {
  branches : option Q;
  functions : option Q;
  lines : option Q;
  statements : option Q;
}.

Record ShardConfig : Type := mkShardConfig {
  matchPaths : list string;
  threshold : option Threshold;
}.

(** A [Record<string, ShardConfig>], as its entries in [Object.entries]
    order. *)
Abbreviation Registry := (list (string * ShardConfig)).

(** [Object.keys(shards)]. *)
Definition objectKeys (shards : Registry) : list string := fst <$> shards.

Definition testShards : Registry := [
  ("datasources-1",
   mkShardConfig ["lib/modules/datasource/[a-g]*"]
     (Some (mkThreshold (Some 96.95) None None None)));
  ("datasources-2",
   mkShardConfig ["lib/modules/datasource"]
     (Some (mkThreshold (Some 96.0) (Some 98.25) (Some 99.35) (Some 99.35))));
  ("managers-1",
   mkShardConfig ["lib/modules/manager/[a-c]*"]
     (Some (mkThreshold None (Some 99.3) None None)));
  ("managers-2",
   mkShardConfig ["lib/modules/manager/[d-h]*"]
     (Some (mkThreshold None (Some 99.7) None None)));
  ("managers-3",
   mkShardConfig ["lib/modules/manager/[i-n]*"]
     (Some (mkThreshold (Some 98.5) (Some 98.65) (Some 99.65) (Some 99.65))));
  ("managers-4",
   mkShardConfig ["lib/modules/manager"] None);
  ("platform",
   mkShardConfig ["lib/modules/platform"]
     (Some (mkThreshold (Some 97.5) None None None)));
  ("versioning",
   mkShardConfig ["lib/modules/versioning"]
     (Some (mkThreshold (Some 97.25) None None None)));
  ("workers-1",
   mkShardConfig
     ["lib/workers/repository/changelog";
      "lib/workers/repository/config-migration";
      "lib/workers/repository/extract";
      "lib/workers/repository/finalize";
      "lib/workers/repository/init";
      "lib/workers/repository/model"]
     (Some (mkThreshold (Some 94.0) None (Some 98.98) (Some 98.99))));
  ("workers-2",
   mkShardConfig
     ["lib/workers/repository/onboarding";
      "lib/workers/repository/process"]
     (Some (mkThreshold (Some 98.73) None None None)));
  ("workers-3",
   mkShardConfig
     ["lib/workers/repository/update";
      "lib/workers/repository/updates"]
     None);
  ("workers-4",
   mkShardConfig ["lib/workers"]
     (Some (mkThreshold (Some 98.27) None (Some 99.9) (Some 99.9))));
  ("git-1",
   mkShardConfig ["lib/util/git/index.spec.ts"]
     (Some (mkThreshold None (Some 97.55) (Some 99.8) (Some 99.8))));
  ("git-2",
   mkShardConfig ["lib/util/git"]
     (Some (mkThreshold (Some 98.65) (Some 93.9) (Some 98.4) (Some 98.4))));
  ("util",
   mkShardConfig ["lib/util"]
     (Some (mkThreshold (Some 96.15) (Some 95.85) (Some 97.95) (Some 97.85))));
  ("other",
   mkShardConfig ["lib"] None)
]%Q.

(** The names every object literal inherits from [Object.prototype];
    each of them is bound to a function or an object, hence truthy. *)
Definition objectPrototypeKeys : list string := [
  "constructor"; "__defineGetter__"; "__defineSetter__"; "hasOwnProperty";
  "__lookupGetter__"; "__lookupSetter__"; "isPrototypeOf";
  "propertyIsEnumerable"; "toString"; "valueOf"; "__proto__";
  "toLocaleString"
].

(** Truthiness of [shards[key]]: an own entry is a [ShardConfig] object,
    anything else is looked up along the prototype chain. *)
Definition truthyProperty (shards : Registry) (key : string) : bool :=
  bool_decide (key ∈ objectKeys shards)
  || bool_decide (key ∈ objectPrototypeKeys).

(** ** The resolver: [configureShardingOrFallbackTo] *)

(** Jest's [coverageThreshold]: the [global] value and the values given
    for individual paths. *)
Record CoverageThreshold : Type := mkCoverageThreshold {
  global : option Threshold;
  perPath : list (string * Threshold);
}.

Record JestShardedSubconfig : Type := mkSubconfig {
  testMatch : option (list string);
  collectCoverageFrom : option (list string);
  coverageThreshold : option CoverageThreshold;
  coverageDirectory : option string;
}.

(** The outcome of a call: a returned value or a thrown [Error]. *)
Inductive completion (A : Type) : Type :=
| Return (value : A)
| Throw (message : string).
Arguments Return {A} value.
Arguments Throw {A} message.

Definition normalizePattern (pattern suffix : string) : string :=
  if endsWith pattern ".spec.ts"
  then replaceSpecTs pattern suffix
  else pattern +:+ "/**/*" +:+ suffix.

(** [{ ...base, ...override }] on thresholds: a field the override has
    wins. *)
Definition spreadThreshold (base override : Threshold) : Threshold :=
  let pick (f : Threshold → option Q) :=
    match f override with
    | Some v => Some v
    | None => f base
    end in
  mkThreshold (pick branches) (pick functions) (pick lines) (pick statements).

(** The three variables the [for] loop of the resolver updates. *)
Record ResolverState : Type := mkResolverState {
  rsTestMatch : list string;
  rsCollectCoverageFrom : list string;
  rsGlobal : Threshold;
}.

(** The [for ... of Object.entries(testShards)] loop; the target entry
    ends it ([break]). *)
Fixpoint resolverLoop (entries : Registry) (shardKey : string)
    (st : ResolverState) : ResolverState :=
  match entries with
  | [] => st
  | (key, shard) :: entries' =>
      let patterns := matchPaths shard in
      if String.eqb key shardKey then
        let testMatchPatterns :=
          (λ pattern, "<rootDir>/" +:+ normalizePattern pattern ".spec.ts")
            <$> patterns in
        let coveragePatterns :=
          (λ pattern, normalizePattern pattern ".ts") <$> patterns in
        mkResolverState
          (rsTestMatch st ++ testMatchPatterns)
          (rsCollectCoverageFrom st ++ coveragePatterns)
          (match threshold shard with
           | Some t => spreadThreshold (rsGlobal st) t
           | None => rsGlobal st
           end)
      else
        let testMatchPatterns :=
          (λ pattern, "!**/" +:+ normalizePattern pattern ".spec.ts")
            <$> patterns in
        let coveragePatterns :=
          (λ pattern, "!" +:+ normalizePattern pattern ".ts") <$> patterns in
        resolverLoop entries' shardKey
          (mkResolverState
             (rsTestMatch st ++ testMatchPatterns)
             (rsCollectCoverageFrom st ++ coveragePatterns)
             (rsGlobal st))
  end.

(** [x ?? 100] on an optional field of an optional threshold. *)
Definition orHundred (defaultGlobal : option Threshold)
    (f : Threshold → option Q) : Q :=
  default 100%Q (defaultGlobal ≫= f).

(** The resolver, with the registry and the value of
    [process.env.TEST_SHARD] as arguments. *)
Definition configureShardingOrFallbackTo (shards : Registry)
    (TEST_SHARD : option string) (fallback : JestShardedSubconfig)
    : completion JestShardedSubconfig :=
  match TEST_SHARD with
  | None | Some EmptyString => Return fallback
  | Some shardKey =>
      if negb (truthyProperty shards shardKey) then
        let keys := String.concat ", " (objectKeys shards) in
        Throw ("Unknown value for TEST_SHARD: " +:+ shardKey
               +:+ " (possible values: " +:+ keys +:+ ")")
      else
        let collectCoverageFrom0 :=
          default [] (List.filter startsWithBang
                        <$> collectCoverageFrom fallback) in
        let defaultGlobal := coverageThreshold fallback ≫= global in
        let global0 :=
          mkThreshold
            (Some (orHundred defaultGlobal branches))
            (Some (orHundred defaultGlobal functions))
            (Some (orHundred defaultGlobal lines))
            (Some (orHundred defaultGlobal statements)) in
        let st := resolverLoop shards shardKey
                    (mkResolverState [] collectCoverageFrom0 global0) in
        Return (mkSubconfig
          (Some (reverse (rsTestMatch st)))
          (Some (reverse (rsCollectCoverageFrom st)))
          (Some (mkCoverageThreshold (Some (rsGlobal st)) []))
          (Some ("./coverage/shard/" +:+ shardKey)))
  end.

(** The configuration the module passes as [fallback]. *)
Definition fallbackConfig : JestShardedSubconfig :=
  mkSubconfig
    None
    (Some ["lib/**/*.{js,ts}";
           "!lib/**/*.{d,spec}.ts";
           "!lib/**/{__fixtures__,__mocks__,__testutil__,test}/**/*.{js,ts}";
           "!lib/**/types.ts"])
    (Some (mkCoverageThreshold
             (Some (mkThreshold (Some 98) (Some 100) (Some 100) (Some 100))%Q)
             []))
    (Some "./coverage").

(** ** The selector: [getMatchingShards] *)

Section Selector.
(** [minimatch(file, pattern)], from the [minimatch] package. *)
Variable minimatch : string → string → bool.

(** The glob a match path stands for when changed files are matched. *)
Definition changedFilePattern (path : string) : string :=
  if endsWith path ".spec.ts"
  then replaceSpecTs path "{.ts,.spec.ts}"
  else path +:+ "/**/*".

(** [patterns.some((pattern) => minimatch(file, pattern))] for the
    patterns of one shard. *)
Definition shardMatches (file : string) (shard : ShardConfig) : bool :=
  existsb (minimatch file) (changedFilePattern <$> matchPaths shard).

(** The inner loop: the first entry that matches [file] is added to
    [matchingShards], and the loop ends there ([break]). *)
Fixpoint scanShards (entries : Registry) (file : string)
    (matchingShards : gset string) : gset string :=
  match entries with
  | [] => matchingShards
  | (key, shard) :: entries' =>
      if shardMatches file shard
      then {[key]} ∪ matchingShards
      else scanShards entries' file matchingShards
  end.

Definition getMatchingShards (shards : Registry) (files : list string)
    : list string :=
  let matchingShards :=
    foldl (λ acc file, scanShards shards file acc) ∅ files in
  List.filter (λ shard, bool_decide (shard ∈ matchingShards))
    (objectKeys shards).

End Selector.

(** ** Notions of the specification *)

(** *** Partitioner *)

(** [ceil(n / k)] for a positive [k]. *)
Definition ceilQuot (n k : Z) : Z := (n + k - 1) `div` k.

(** The sizes the specification prescribes for [n] items in [k]
    groups: every group has [base] items when the remainder is zero;
    otherwise the first [n mod k] groups have [base] items and the
    others [base - 1]. *)
Definition balancedSizes (n k : Z) : list Z :=
  let base := ceilQuot n k in
  (λ idx, if decide (n `mod` k = 0) then base
          else if decide (idx < n `mod` k) then base else base - 1)
    <$> seqZ 0 k.

(** *** Resolver *)

(** The entries a shard declared before the target contributes. *)
Definition testMatchExclusions (shard : ShardConfig) : list string :=
  (λ pattern, "!**/" +:+ normalizePattern pattern ".spec.ts")
    <$> matchPaths shard.

Definition coverageExclusions (shard : ShardConfig) : list string :=
  (λ pattern, "!" +:+ normalizePattern pattern ".ts") <$> matchPaths shard.

(** The entries the target shard contributes. *)
Definition testMatchInclusions (shard : ShardConfig) : list string :=
  (λ pattern, "<rootDir>/" +:+ normalizePattern pattern ".spec.ts")
    <$> matchPaths shard.

Definition coverageInclusions (shard : ShardConfig) : list string :=
  (λ pattern, normalizePattern pattern ".ts") <$> matchPaths shard.

(** The exclusion entries of a pattern list: the patterns that start
    with [!]. *)
Definition exclusionEntries (patterns : list string) : list string :=
  List.filter startsWithBang patterns.

(** The exclusion patterns the fallback configuration carries. *)
Definition fallbackExclusions (fallback : JestShardedSubconfig)
    : list string :=
  default [] (exclusionEntries <$> collectCoverageFrom fallback).

(** The four threshold fields. *)
Inductive ThresholdField : Type :=
| Branches
| Functions
| Lines
| Statements.

Definition getField (field : ThresholdField) : Threshold → option Q :=
  match field with
  | Branches => branches
  | Functions => functions
  | Lines => lines
  | Statements => statements
  end.

(** The baseline default of a field: the value the fallback's [global]
    threshold gives it, 100 where it gives none. *)
Definition baseline (fallback : JestShardedSubconfig)
    (field : ThresholdField) : Q :=
  orHundred (coverageThreshold fallback ≫= global) (getField field).

Definition baselineThreshold (fallback : JestShardedSubconfig) : Threshold :=
  mkThreshold (Some (baseline fallback Branches))
    (Some (baseline fallback Functions))
    (Some (baseline fallback Lines))
    (Some (baseline fallback Statements)).

(** The threshold a configuration resolves to. *)
Definition resolvedThreshold (config : JestShardedSubconfig)
    : option Threshold :=
  coverageThreshold config ≫= global.

(** The exclusion law as the specification words it: with the target at
    position [k], a pattern is excluded exactly when it is a normalized
    pattern of a shard at a position below [k]. *)
Definition ExclusionLawAsStated (shards : Registry) (k : nat)
    (fallback : JestShardedSubconfig) : Prop :=
  ∀ key shard config,
    shards !! k = Some (key, shard) →
    configureShardingOrFallbackTo shards (Some key) fallback = Return config →
    (∀ e, e ∈ exclusionEntries (default [] (testMatch config))
          ↔ e ∈ (take k shards).*2 ≫= testMatchExclusions)
    ∧ (∀ e, e ∈ exclusionEntries (default [] (collectCoverageFrom config))
            ↔ e ∈ (take k shards).*2 ≫= coverageExclusions).

(** The partial-override half of the threshold law as the specification
    words it: the fields that differ from the baseline are exactly the
    overridden ones. *)
Definition ThresholdLawAsStated (shards : Registry) (k : nat)
    (fallback : JestShardedSubconfig) : Prop :=
  ∀ key shard override config resolved,
    shards !! k = Some (key, shard) →
    threshold shard = Some override →
    configureShardingOrFallbackTo shards (Some key) fallback = Return config →
    resolvedThreshold config = Some resolved →
    ∀ field,
      getField field resolved ≠ Some (baseline fallback field)
      ↔ is_Some (getField field override).

(** *** Selector *)

Section SelectorNotions.
Variable minimatch : string → string → bool.

(** The shard a file is attributed to: the first registry entry one of
    whose patterns matches it. *)
Definition responsibleShard (shards : Registry) (file : string)
    : option string :=
  (λ found, found.2.1)
    <$> list_find (λ entry, shardMatches minimatch file entry.2) shards.

(** Position [j] holds the first shard that matches [file]. *)
Definition firstMatchAt (shards : Registry) (file : string) (j : nat)
    : Prop :=
  (∃ entry, shards !! j = Some entry ∧ shardMatches minimatch file entry.2)
  ∧ ∀ i entry, shards !! i = Some entry → (i < j)%nat →
      ¬ shardMatches minimatch file entry.2.

(** Selector exclusivity as the specification words it: a file that
    matches two shards is attributed to the one declared first of the
    two. *)
Definition ExclusivityAsStated (shards : Registry) : Prop :=
  ∀ (i j : nat) s1 shard1 s2 shard2 file,
    (i < j)%nat →
    shards !! i = Some (s1, shard1) →
    shards !! j = Some (s2, shard2) →
    shardMatches minimatch file shard1 →
    shardMatches minimatch file shard2 →
    responsibleShard shards file = Some s1.

End SelectorNotions.

(** A matcher for directory globs, to run the selector on concrete
    files: [dirGlob file pattern] holds when [pattern] is [dir/**/*]
    and [file] lies under [dir/], the directory name being compared
    literally.  On the files of the examples below it answers as
    [minimatch] does for every pattern of [testShards]. *)
Fixpoint dirGlob (file pattern : string) : bool :=
  if String.eqb pattern "/**/*" then
    match file with
    | String c (String _ _) => Ascii.eqb c "/"
    | _ => false
    end
  else
    match pattern, file with
    | String p pattern', String f file' =>
        Ascii.eqb p f && dirGlob file' pattern'
    | _, _ => false
    end.

(** A fallback whose baseline for [branches] is 97.5. *)
Definition fallbackBranches975 : JestShardedSubconfig :=
  mkSubconfig None None
    (Some (mkCoverageThreshold
             (Some (mkThreshold (Some 97.5%Q) None None None)) []))
    None.

(** ** The matrix builder: the [SCHEDULE_TEST_SHARDS] script *)

(** [s.replace(/-latest$/, '')]. *)
Fixpoint stripLatest (s : string) : string :=
  if String.eqb s "-latest" then EmptyString
  else match s with
       | EmptyString => EmptyString
       | String c s' => String c (stripLatest s')
       end.

(** The type [RunsOn] and the strings it stands for. *)
Inductive RunsOn : Type :=
| UbuntuLatest
| WindowsLatest
| MacosLatest.

Definition runsOnName (os : RunsOn) : string :=
  match os with
  | UbuntuLatest => "ubuntu-latest"
  | WindowsLatest => "windows-latest"
  | MacosLatest => "macos-latest"
  end.

Record ShardGroup : Type := mkShardGroup {
  group_os : RunsOn;
  group_coverage : bool;
  group_name : string;
  group_shards : string;
  group_cache_key : string;
  group_runner_timeout_minutes : Z;
  group_test_timeout_milliseconds : Z;
}.

(** [{ ubuntu: 10, windows: 20, macos: 20 }[platform] ?? 20], for the
    platform names the script computes. *)
Definition runnerTimeoutMinutes (platform : string) : Z :=
  if String.eqb platform "ubuntu" then 10
  else if String.eqb platform "windows" then 20
  else if String.eqb platform "macos" then 20
  else 20.

(** [{ windows: 240000 }[platform] ?? 120000], for the platform names
    the script computes. *)
Definition testTimeoutMilliseconds (platform : string) : Z :=
  if String.eqb platform "windows" then 240000 else 120000.

(** The environment variables the script reads. *)
Record Env : Type := mkEnv {
  SCHEDULE_TEST_SHARDS : option string;
  FILTER_SHARDS : option string;
  CHANGED_FILES : option string;
  ALL_PLATFORMS : option string;
}.

(** Truthiness of an environment variable: set and not empty. *)
Definition truthy (value : option string) : bool :=
  match value with
  | Some (String _ _) => true
  | _ => false
  end.

(** What [JSON.parse] yields for [CHANGED_FILES], as the selection
    treats it.  [FileList files] is a value that [getMatchingShards]
    iterates as the strings [files]: an array of strings (a JSON string
    is iterated character by character).  [NotFileList] is any other
    value, on which [getMatchingShards] throws: a value that is not
    iterable (a number, a boolean, null, an object), or an array with an
    element that is not a string, which [minimatch] rejects when the
    first shard with a match path hands it over. *)
Inductive ParsedValue : Type :=
| FileList (files : list string)
| NotFileList.

(** How the script ends.  [ExitMatrix shardGroups files] prints
    [test-shard-matrix=] followed by the JSON text of [shardGroups] and
    [test-coverage-files=] followed by [files], and exits with 0. *)
Inductive ScriptOutcome : Type :=
| SkipScheduling
    (* SCHEDULE_TEST_SHARDS is not set: the block is skipped *)
| ExitMatrixEmpty
    (* prints test-matrix-empty=true, exit code 0 *)
| ExitError
    (* the catch branch: prints the error on stderr, exit code 1 *)
| ExitMatrix (shardGroups : list ShardGroup) (testCoverageFiles : string).

Section MatrixBuilder.
Variable minimatch : string → string → bool.
(** [crypto.createHash('md5').update(s).digest('hex')]. *)
Variable md5Hex : string → string.
(** [JSON.parse(text)]; [None] when it throws. *)
Variable parseJSON : string → option ParsedValue.

(** The body of the inner loop: the group pushed for [groups[idx]]. *)
Definition shardGroupAt (os : RunsOn) (total : nat) (idx : nat)
    (shards : list string) : ShardGroup :=
  let coverage := String.eqb (runsOnName os) "ubuntu-latest" in
  let number := S idx in
  let platform := stripLatest (runsOnName os) in
  let name :=
    if String.eqb platform "ubuntu"
    then "test (" +:+ pretty number +:+ "/" +:+ pretty total +:+ ")"
    else "test-" +:+ platform +:+ " (" +:+ pretty number +:+ "/"
         +:+ pretty total +:+ ")" in
  let cacheKey := md5Hex (String.concat ":" shards) in
  mkShardGroup os coverage name (String.concat " " shards) cacheKey
    (runnerTimeoutMinutes platform) (testTimeoutMilliseconds platform).

(** [shardGrouping]: the groups of each platform, in the order the
    object gets its keys. *)
Definition shardGrouping (shardKeys : list string) (allPlatforms : bool)
    : list (RunsOn * list (list string)) :=
  (UbuntuLatest, scheduleItems shardKeys 16)
  :: (if allPlatforms
      then [(WindowsLatest, scheduleItems shardKeys 8);
            (MacosLatest, scheduleItems shardKeys 4)]
      else []).

(** The two nested loops that fill [shardGroups]. *)
Definition buildShardGroups (shardKeys : list string) (allPlatforms : bool)
    : list ShardGroup :=
  shardGrouping shardKeys allPlatforms
    ≫= (λ '(os, groups), imap (shardGroupAt os (length groups)) groups).

Definition testCoverageFiles (shardKeys : list string) : string :=
  String.concat ","
    ((λ shard, "./coverage-reports/" +:+ shard +:+ ".json") <$> shardKeys).

(** The script guarded by [process.env.SCHEDULE_TEST_SHARDS].  The
    [try] block holds [JSON.parse], the call of [getMatchingShards] and
    the filter: an error thrown by either of the first two ends in the
    [catch] branch. *)
Definition scheduleTestShards (shards : Registry) (env : Env)
    : ScriptOutcome :=
  if negb (truthy (SCHEDULE_TEST_SHARDS env)) then SkipScheduling
  else
    let allKeys := objectKeys shards in
    let filtered : ScriptOutcome + list string :=
      if bool_decide (FILTER_SHARDS env = Some "true")
         && truthy (CHANGED_FILES env)
      then
        match parseJSON (default "" (CHANGED_FILES env)) with
        | None => inl ExitError
        | Some NotFileList => inl ExitError
        | Some (FileList changedFiles) =>
            let matchingShards :=
              getMatchingShards minimatch shards changedFiles in
            if (length matchingShards =? 0)%nat then inl ExitMatrixEmpty
            else
              inr (List.filter
                     (λ key, bool_decide (key ∈ matchingShards)) allKeys)
        end
      else inr allKeys in
    match filtered with
    | inl outcome => outcome
    | inr shardKeys =>
        ExitMatrix
          (buildShardGroups shardKeys
             (bool_decide (ALL_PLATFORMS env = Some "true")))
          (testCoverageFiles shardKeys)
    end.

End MatrixBuilder.

(** A digest to run the script on concrete inputs; the properties below
    hold for every digest function. *)
Definition plainDigest (s : string) : string := s.

(** A reader to run the script on concrete inputs: it answers with a
    fixed list of files.  The properties below hold for every reader. *)
Definition fixedReader (files : list string) (text : string)
    : option ParsedValue :=
  Some (FileList files).

(** *** Notions for the matrix *)

#[global] Instance RunsOn_eq_dec : EqDecision RunsOn.
Proof. solve_decision. Defined.

(** The runner groups emitted for one platform. *)
Definition groupsOf (os : RunsOn) (shardGroups : list ShardGroup)
    : list ShardGroup :=
  filter (λ group, group_os group = os) shardGroups.

(** How many runners a platform may use. *)
Definition instanceCap (os : RunsOn) : Z :=
  match os with
  | UbuntuLatest => 16
  | WindowsLatest => 8
  | MacosLatest => 4
  end.

(** Whether a platform takes part in the run. *)
Definition scheduledOn (os : RunsOn) (allPlatforms : bool) : bool :=
  match os with
  | UbuntuLatest => true
  | WindowsLatest | MacosLatest => allPlatforms
  end.

(** The job name of a platform, before the numbering. *)
Definition jobPrefix (os : RunsOn) : string :=
  match os with
  | UbuntuLatest => "test"
  | WindowsLatest => "test-windows"
  | MacosLatest => "test-macos"
  end.

(** * Properties *)

(** ** Worked examples *)

Example scheduleItems_10_3 :
  scheduleItems (seqZ 1 10) 3 = [[1; 2; 3; 4]; [5; 6; 7]; [8; 9; 10]].
Proof. vm_compute. reflexivity. Qed.

Example scheduleItems_9_3 :
  scheduleItems (seqZ 1 9) 3 = [[1; 2; 3]; [4; 5; 6]; [7; 8; 9]].
Proof. vm_compute. reflexivity. Qed.

Example scheduleItems_2_5 :
  scheduleItems (seqZ 1 2) 5 = [[1]; [2]].
Proof. vm_compute. reflexivity. Qed.

Example normalizePattern_directory :
  normalizePattern "lib/util/git" ".spec.ts" = "lib/util/git/**/*.spec.ts".
Proof. reflexivity. Qed.

Example normalizePattern_file :
  normalizePattern "lib/util/git/index.spec.ts" ".ts" = "lib/util/git/index.ts".
Proof. reflexivity. Qed.

Example resolve_datasources_2 :
  configureShardingOrFallbackTo testShards (Some "datasources-2") fallbackConfig
  = Return (mkSubconfig
      (Some ["<rootDir>/lib/modules/datasource/**/*.spec.ts";
             "!**/lib/modules/datasource/[a-g]*/**/*.spec.ts"])
      (Some ["lib/modules/datasource/**/*.ts";
             "!lib/modules/datasource/[a-g]*/**/*.ts";
             "!lib/**/types.ts";
             "!lib/**/{__fixtures__,__mocks__,__testutil__,test}/**/*.{js,ts}";
             "!lib/**/*.{d,spec}.ts"])
      (Some (mkCoverageThreshold
               (Some (mkThreshold (Some 96.0) (Some 98.25)
                        (Some 99.35) (Some 99.35))%Q) []))
      (Some "./coverage/shard/datasources-2")).
Proof. reflexivity. Qed.

(** ** [slice] on the arguments the partitioner passes *)

Lemma relativeIndex_nonneg len s :
  0 ≤ s → JS.relativeIndex len (JS.Num s) = Z.min s len.
Proof.
  intros. unfold JS.relativeIndex. by rewrite (proj2 (Z.ltb_ge s 0)).
Qed.

Section SliceFacts.
Context {A : Type}.
Implicit Types l : list A.

Lemma slice_copy l : JS.slice l None None = l.
Proof.
  unfold JS.slice; simpl. rewrite drop_0, Z.sub_0_r, Nat2Z.id.
  by apply take_ge.
Qed.

Lemma slice_prefix l s :
  0 ≤ s →
  JS.slice l (Some (JS.Num 0)) (Some (JS.Num s)) = take (Z.to_nat s) l.
Proof.
  intros Hs. unfold JS.slice, from_option.
  rewrite !relativeIndex_nonneg by lia.
  rewrite (Z.min_l 0) by lia. rewrite Z.sub_0_r, drop_0.
  destruct (Z.min_spec s (Z.of_nat (length l))) as [[? ->]|[? ->]]; [done|].
  rewrite Nat2Z.id, !take_ge; [done|lia..].
Qed.

Lemma slice_suffix l s :
  0 ≤ s → JS.slice l (Some (JS.Num s)) None = drop (Z.to_nat s) l.
Proof.
  intros Hs. unfold JS.slice, from_option.
  rewrite !relativeIndex_nonneg by lia.
  destruct (Z.min_spec s (Z.of_nat (length l))) as [[? ->]|[? ->]].
  - apply take_ge. rewrite length_drop. lia.
  - rewrite Nat2Z.id, Z.sub_diag. simpl. rewrite !drop_ge; [done|lia..].
Qed.

End SliceFacts.

(** ** The loop of [scheduleItems] cuts [items] as [reshape] does *)

Section LoopFacts.
Context {T : Type}.
Implicit Types (items rest : list T) (result : list (list T)).

Lemma reshape_app (szs1 szs2 : list nat) items :
  reshape (szs1 ++ szs2) items
  = reshape szs1 items ++ reshape szs2 (drop (sum_list szs1) items).
Proof.
  revert items. induction szs1 as [|sz szs1 IH]; intros items; simpl; [done|].
  by rewrite IH, drop_drop.
Qed.

Lemma concat_reshape (szs : list nat) items :
  sum_list szs = length items → concat (reshape szs items) = items.
Proof.
  revert items. induction szs as [|sz szs IH]; intros items Hsum; simpl in *.
  - by destruct items.
  - rewrite IH by (rewrite length_drop; lia). apply take_drop.
Qed.

Lemma length_reshape_full (szs : list nat) items :
  (sum_list szs ≤ length items)%nat →
  length <$> reshape szs items = szs.
Proof.
  revert items. induction szs as [|sz szs IH]; intros items Hsum; [done|].
  simpl in *. rewrite IH by (rewrite length_drop; lia).
  by rewrite length_take_le by lia.
Qed.

(** The state of the loop after its first [i] turns. *)
Lemma schedule_loop_prefix (szs : list Z) items result (i : nat) :
  Forall (λ s, 0 ≤ s) szs →
  length result = length szs →
  (i ≤ length szs)%nat →
  foldl (scheduleStep (JS.Num <$> szs)) (result, items) (seqZ 0 (Z.of_nat i))
  = (reshape (Z.to_nat <$> take i szs) items ++ drop i result,
     drop (sum_list (Z.to_nat <$> take i szs)) items).
Proof.
  intros Hpos Hlen. induction i as [|i IH]; intros Hi.
  { by rewrite seqZ_nil. }
  rewrite seqZ_S, foldl_app, IH by lia. simpl.
  destruct (lookup_lt_is_Some_2 szs i) as [s Hs]; [lia|].
  assert (0 ≤ s) as Hs0 by (by eapply (Forall_lookup_1 _ _ _ _ Hpos)).
  rewrite Z.add_0_l, Nat2Z.id, list_lookup_fmap, Hs. simpl.
  rewrite slice_prefix, slice_suffix by done.
  rewrite (take_S_r _ _ _ Hs), fmap_app, reshape_app, drop_drop. simpl.
  rewrite sum_list_with_app. simpl. rewrite Nat.add_0_r.
  f_equal.
  destruct (lookup_lt_is_Some_2 result i) as [r Hr]; [lia|].
  rewrite (drop_S _ _ _ Hr).
  rewrite insert_app_r_alt
    by (rewrite length_reshape, length_fmap, length_take; lia).
  rewrite length_reshape, length_fmap, length_take.
  replace (i - i `min` length szs)%nat with 0%nat by lia. simpl.
  by rewrite <-app_assoc.
Qed.

Lemma schedule_loop (szs : list Z) items result :
  Forall (λ s, 0 ≤ s) szs →
  length result = length szs →
  fst (foldl (scheduleStep (JS.Num <$> szs)) (result, items)
         (seqZ 0 (Z.of_nat (length szs))))
  = reshape (Z.to_nat <$> szs) items.
Proof.
  intros Hpos Hlen. rewrite schedule_loop_prefix by done. simpl.
  rewrite firstn_all, drop_ge by lia. by rewrite app_nil_r.
Qed.

End LoopFacts.

(** ** The sizes [scheduleItems] computes *)

Lemma ceilDiv_pos n k :
  1 ≤ k → JS.ceilDiv n k = JS.Num (ceilQuot n k).
Proof.
  intros Hk. unfold JS.ceilDiv, ceilQuot.
  rewrite (proj2 (Z.eqb_neq k 0)) by lia. f_equal.
  pose proof (Z.div_mod (- n) k ltac:(lia)).
  pose proof (Z.mod_pos_bound (- n) k ltac:(lia)).
  pose proof (Z.div_mod (n + k - 1) k ltac:(lia)).
  pose proof (Z.mod_pos_bound (n + k - 1) k ltac:(lia)).
  nia.
Qed.

(** [ceilQuot n k] is the least integer whose product with [k] reaches
    [n]. *)
Lemma ceilQuot_spec n k :
  1 ≤ k → (ceilQuot n k - 1) * k < n ≤ ceilQuot n k * k.
Proof.
  intros Hk. unfold ceilQuot.
  pose proof (Z.div_mod (n + k - 1) k ltac:(lia)).
  pose proof (Z.mod_pos_bound (n + k - 1) k ltac:(lia)).
  nia.
Qed.

Lemma ceilQuot_mod n k :
  1 ≤ k →
  ceilQuot n k = if decide (n `mod` k = 0) then n `div` k else n `div` k + 1.
Proof.
  intros Hk. unfold ceilQuot.
  pose proof (Z.div_mod n k ltac:(lia)).
  pose proof (Z.mod_pos_bound n k ltac:(lia)).
  case_decide.
  - symmetry. apply (Z.div_unique _ _ _ (k - 1)); lia.
  - symmetry. apply (Z.div_unique _ _ _ (n `mod` k - 1)); lia.
Qed.

Lemma remainder_pos n k :
  0 ≤ n → 1 ≤ k → JS.remainder n k = JS.Num (n `mod` k).
Proof.
  intros Hn Hk. unfold JS.remainder.
  rewrite (proj2 (Z.eqb_neq k 0)) by lia.
  by rewrite Z.rem_mod_nonneg by lia.
Qed.

Lemma partitionSizes_balanced n k :
  0 ≤ n → 1 ≤ k →
  JS.arrayFrom k (λ idx,
    if JS.lt idx
         (if JS.strictEq (JS.remainder n k) 0
          then JS.Num k else JS.remainder n k)
    then JS.ceilDiv n k else JS.pred (JS.ceilDiv n k))
  = JS.Num <$> balancedSizes n k.
Proof.
  intros Hn Hk. unfold JS.arrayFrom, balancedSizes.
  rewrite <-list_fmap_compose. apply Forall_fmap_ext_1, Forall_seqZ.
  intros idx [Hidx0 Hidx].
  rewrite remainder_pos, ceilDiv_pos by done. simpl.
  case_decide as Hr.
  - rewrite Hr. simpl. by rewrite (proj2 (Z.ltb_lt idx k)) by lia.
  - rewrite (proj2 (Z.eqb_neq _ 0)) by done. simpl.
    case_decide.
    + by rewrite (proj2 (Z.ltb_lt _ _)) by done.
    + by rewrite (proj2 (Z.ltb_ge _ _)) by lia.
Qed.

Lemma length_balancedSizes n k : length (balancedSizes n k) = Z.to_nat k.
Proof. unfold balancedSizes. by rewrite length_fmap, length_seqZ. Qed.

Lemma balancedSizes_lookup n k (i : nat) s :
  balancedSizes n k !! i = Some s →
  Z.of_nat i < k ∧
  s = if decide (n `mod` k = 0) then ceilQuot n k
      else if decide (Z.of_nat i < n `mod` k) then ceilQuot n k
      else ceilQuot n k - 1.
Proof.
  unfold balancedSizes. rewrite list_lookup_fmap.
  destruct (seqZ 0 k !! i) as [idx|] eqn:Hidx; [|done].
  apply lookup_seqZ in Hidx as [-> ?]. simpl. intros [= <-].
  by rewrite Z.add_0_l.
Qed.

Lemma balancedSizes_elem n k s :
  s ∈ balancedSizes n k → s = ceilQuot n k ∨ s = ceilQuot n k - 1.
Proof.
  intros [i [_ ->]%balancedSizes_lookup]%list_elem_of_lookup.
  repeat case_decide; auto.
Qed.

Lemma balancedSizes_pos n k :
  1 ≤ k ≤ n → Forall (λ s, 1 ≤ s) (balancedSizes n k).
Proof.
  intros Hk. apply Forall_lookup. intros i s [_ ->]%balancedSizes_lookup.
  rewrite ceilQuot_mod by lia.
  pose proof (Z.div_mod n k ltac:(lia)).
  pose proof (Z.mod_pos_bound n k ltac:(lia)).
  assert (1 ≤ n `div` k) by nia.
  repeat case_decide; lia.
Qed.

Lemma sum_list_seqZ_same (f : Z → Z) a len c :
  0 ≤ len → 0 ≤ c →
  (∀ idx, a ≤ idx < a + len → f idx = c) →
  sum_list (Z.to_nat <$> (f <$> seqZ a len)) = Z.to_nat (len * c).
Proof.
  intros Hlen Hc Hf. rewrite <-list_fmap_compose.
  rewrite (sum_list_fmap_same (Z.to_nat c)).
  - rewrite length_seqZ. lia.
  - apply Forall_seqZ. intros idx Hidx. simpl. by rewrite Hf.
Qed.

Lemma sum_balancedSizes n k :
  1 ≤ k ≤ n → sum_list (Z.to_nat <$> balancedSizes n k) = Z.to_nat n.
Proof.
  intros Hk. unfold balancedSizes.
  pose proof (Z.div_mod n k ltac:(lia)).
  pose proof (Z.mod_pos_bound n k ltac:(lia)).
  assert (1 ≤ n `div` k) by nia.
  rewrite ceilQuot_mod by lia. case_decide as Hr.
  - rewrite (sum_list_seqZ_same _ _ _ (n `div` k)); [f_equal; nia|lia..|done].
  - assert (seqZ 0 k = seqZ 0 (n `mod` k) ++ seqZ (n `mod` k) (k - n `mod` k))
      as -> by (rewrite <-(seqZ_app 0) by lia; f_equal; lia).
    rewrite !fmap_app, sum_list_with_app.
    rewrite (sum_list_seqZ_same _ _ _ (n `div` k + 1));
      [|lia..|by intros; case_decide; lia].
    rewrite (sum_list_seqZ_same _ _ _ (n `div` k));
      [|lia..|by intros; case_decide; lia].
    nia.
Qed.

Section PartitionFacts.
Context {T : Type}.
Implicit Types items : list T.

Lemma length_nonempty items : items ≠ [] → 1 ≤ Z.of_nat (length items).
Proof. destruct items; simpl; [done|lia]. Qed.

(** On the inputs the specification allows, [scheduleItems] cuts
    [items] into consecutive pieces of the balanced sizes. *)
Lemma scheduleItems_reshape items (m : Z) :
  items ≠ [] → 1 ≤ m →
  scheduleItems items m
  = reshape
      (Z.to_nat <$> balancedSizes (Z.of_nat (length items))
                      (Z.min (Z.of_nat (length items)) m))
      items.
Proof.
  intros Hne%length_nonempty Hm. unfold scheduleItems.
  set (n := Z.of_nat (length items)) in *. set (k := Z.min n m).
  assert (1 ≤ k ≤ n) as Hk by lia.
  rewrite partitionSizes_balanced, slice_copy by lia.
  replace (seqZ 0 k) with (seqZ 0 (Z.of_nat (length (balancedSizes n k))))
    by (rewrite length_balancedSizes; f_equal; lia).
  apply schedule_loop.
  - eapply Forall_impl; [by apply balancedSizes_pos|]. simpl. lia.
  - unfold JS.arrayFrom. rewrite length_fmap, length_seqZ.
    by rewrite length_balancedSizes.
Qed.

Lemma scheduleItems_lengths items (m : Z) :
  items ≠ [] → 1 ≤ m →
  length <$> scheduleItems items m
  = Z.to_nat <$> balancedSizes (Z.of_nat (length items))
                   (Z.min (Z.of_nat (length items)) m).
Proof.
  intros Hne Hm. rewrite scheduleItems_reshape by done.
  apply length_nonempty in Hne.
  apply length_reshape_full. rewrite sum_balancedSizes by lia. lia.
Qed.

End PartitionFacts.

(** ** The partitioner's laws *)

(** C1 (partition conservation).  For a non-empty [items] and
    [maxGroups ≥ 1], the groups returned by [scheduleItems],
    concatenated in order, are [items] itself; so the group sizes add up
    to the length of [items]. *)
Theorem scheduleItems_conservation {T} (items : list T) (maxGroups : Z) :
  items ≠ [] → 1 ≤ maxGroups →
  concat (scheduleItems items maxGroups) = items
  ∧ sum_list (length <$> scheduleItems items maxGroups) = length items.
Proof.
  intros Hne Hm. pose proof (length_nonempty _ Hne) as Hlen.
  rewrite scheduleItems_lengths by done.
  rewrite scheduleItems_reshape by done.
  rewrite sum_balancedSizes by lia. split; [|lia].
  apply concat_reshape. rewrite sum_balancedSizes by lia. lia.
Qed.

Lemma scheduleItems_conservation_witness :
  concat (scheduleItems (seqZ 1 10) 3) = seqZ 1 10
  ∧ sum_list (length <$> scheduleItems (seqZ 1 10) 3) = length (seqZ 1 10).
Proof.
  apply (scheduleItems_conservation (seqZ 1 10) 3); [vm_compute; congruence|lia].
Defined.

(** C2 (partition balance and deterministic skew).  For a non-empty
    [items] and [maxGroups ≥ 1], with [numGroups = min(len, maxGroups)]
    and [base = ceil(len / numGroups)], the group sizes are the balanced
    ones: all [base] when [len mod numGroups = 0], otherwise [base] for
    the first [len mod numGroups] groups and [base - 1] for the others.
    Hence two groups differ in size by at most 1; and 10 items with
    [maxGroups = 3] give the sizes 4, 3, 3. *)
Theorem scheduleItems_balance {T} (items : list T) (maxGroups : Z) :
  items ≠ [] → 1 ≤ maxGroups →
  let len := Z.of_nat (length items) in
  let numGroups := Z.min len maxGroups in
  let base := ceilQuot len numGroups in
  (base - 1) * numGroups < len ≤ base * numGroups
  ∧ (Z.of_nat ∘ length) <$> scheduleItems items maxGroups
    = (λ idx, if decide (len `mod` numGroups = 0) then base
              else if decide (idx < len `mod` numGroups) then base
              else base - 1) <$> seqZ 0 numGroups
  ∧ (∀ g1 g2,
       g1 ∈ scheduleItems items maxGroups →
       g2 ∈ scheduleItems items maxGroups →
       (length g1 ≤ length g2 + 1)%nat)
  ∧ (length items = 10%nat → maxGroups = 3 →
     length <$> scheduleItems items maxGroups = [4; 3; 3]%nat).
Proof.
  intros Hne Hm len numGroups base.
  pose proof (length_nonempty _ Hne) as Hlen. fold len in Hlen.
  assert (1 ≤ numGroups ≤ len) as Hk by (unfold numGroups; lia).
  pose proof (scheduleItems_lengths items maxGroups Hne Hm) as Hsizes.
  fold len numGroups in Hsizes.
  pose proof (balancedSizes_pos len numGroups Hk) as Hpos.
  split; [by apply ceilQuot_spec; lia|]. split; [|split].
  - rewrite list_fmap_compose, Hsizes, <-list_fmap_compose.
    change ((λ idx : Z, _) <$> seqZ 0 numGroups)
      with (balancedSizes len numGroups).
    rewrite <-(list_fmap_id (balancedSizes len numGroups)) at 2.
    apply Forall_fmap_ext_1. eapply Forall_impl; [exact Hpos|].
    simpl. intros s Hs. lia.
  - assert (∀ g, g ∈ scheduleItems items maxGroups →
              Z.of_nat (length g) = base ∨ Z.of_nat (length g) = base - 1)
      as Hsize.
    { intros g Hg.
      assert (length g ∈ length <$> scheduleItems items maxGroups) as Hin
        by (by apply list_elem_of_fmap_2).
      rewrite Hsizes in Hin.
      apply list_elem_of_fmap in Hin as (s & Hgs & Hs).
      pose proof (proj1 (Forall_forall _ _) Hpos s Hs) as Hs1. simpl in Hs1.
      apply balancedSizes_elem in Hs. fold base in Hs. lia. }
    intros g1 g2 Hg1%Hsize Hg2%Hsize. lia.
  - intros H10 ->. rewrite Hsizes. unfold numGroups, len. rewrite H10.
    reflexivity.
Qed.

Lemma scheduleItems_balance_witness :
  length <$> scheduleItems (seqZ 1 10) 3 = [4; 3; 3]%nat.
Proof.
  apply (scheduleItems_balance (seqZ 1 10) 3);
    [vm_compute; congruence|lia|reflexivity|reflexivity].
Defined.

(** C3 (partition cap).  For a non-empty [items] and [maxGroups ≥ 1],
    [scheduleItems] returns [min(len, maxGroups)] groups, none of them
    empty. *)
Theorem scheduleItems_cap {T} (items : list T) (maxGroups : Z) :
  items ≠ [] → 1 ≤ maxGroups →
  Z.of_nat (length (scheduleItems items maxGroups))
  = Z.min (Z.of_nat (length items)) maxGroups
  ∧ Forall (λ group, group ≠ []) (scheduleItems items maxGroups).
Proof.
  intros Hne Hm. pose proof (length_nonempty _ Hne) as Hlen.
  pose proof (scheduleItems_lengths items maxGroups Hne Hm) as Hsizes.
  set (len := Z.of_nat (length items)) in *.
  set (numGroups := Z.min len maxGroups) in *.
  assert (1 ≤ numGroups ≤ len) as Hk by (unfold numGroups; lia).
  split.
  - rewrite <-(length_fmap length), Hsizes, length_fmap, length_balancedSizes.
    lia.
  - apply Forall_forall. intros g Hg ->.
    assert (length (@nil T) ∈ length <$> scheduleItems items maxGroups) as Hin
      by (by apply list_elem_of_fmap_2).
    rewrite Hsizes in Hin. apply list_elem_of_fmap in Hin as (s & Hgs & Hs).
    pose proof (proj1 (Forall_forall _ _) (balancedSizes_pos len numGroups Hk)
                  s Hs) as Hs1.
    simpl in *. lia.
Qed.

Lemma scheduleItems_cap_witness :
  Z.of_nat (length (scheduleItems (seqZ 1 16) 4)) = 4
  ∧ Forall (λ group, group ≠ []) (scheduleItems (seqZ 1 16) 4).
Proof.
  apply (scheduleItems_cap (seqZ 1 16) 4); [vm_compute; congruence|lia].
Defined.

(** C10 (the empty input).  [scheduleItems] returns the empty list of
    groups on the empty list, whatever [availableInstances] is; the
    divisions by [numInstances = 0] it makes on the way give NaN and do
    not fail. *)
Theorem scheduleItems_empty {T} (availableInstances : Z) :
  scheduleItems (@nil T) availableInstances = []
  ∧ JS.ceilDiv 0 0 = JS.NaN
  ∧ JS.remainder 0 0 = JS.NaN.
Proof.
  split; [|done]. unfold scheduleItems, JS.arrayFrom. simpl length.
  by rewrite !seqZ_nil by lia.
Qed.

(** ** The resolver *)

Lemma resolverLoop_target (before after : Registry) key shard st :
  key ∉ objectKeys before →
  resolverLoop (before ++ (key, shard) :: after) key st
  = mkResolverState
      (rsTestMatch st ++ (before.*2 ≫= testMatchExclusions)
         ++ testMatchInclusions shard)
      (rsCollectCoverageFrom st ++ (before.*2 ≫= coverageExclusions)
         ++ coverageInclusions shard)
      (match threshold shard with
       | Some t => spreadThreshold (rsGlobal st) t
       | None => rsGlobal st
       end).
Proof.
  revert st. induction before as [|[key' shard'] before IH]; intros st Hkey.
  - simpl. by rewrite String.eqb_refl.
  - unfold objectKeys in Hkey. rewrite fmap_cons, not_elem_of_cons in Hkey.
    destruct Hkey as [Hne Hkey]. simpl in Hne.
    cbn [app resolverLoop]. rewrite (proj2 (String.eqb_neq key' key)) by done.
    rewrite IH by done. cbn [rsTestMatch rsCollectCoverageFrom rsGlobal].
    rewrite fmap_cons, !bind_cons, <-!app_assoc. done.
Qed.

(** Without a target among the entries the loop runs to the end and
    every shard is excluded. *)
Lemma resolverLoop_no_target (shards : Registry) key st :
  key ∉ objectKeys shards →
  resolverLoop shards key st
  = mkResolverState
      (rsTestMatch st ++ (shards.*2 ≫= testMatchExclusions))
      (rsCollectCoverageFrom st ++ (shards.*2 ≫= coverageExclusions))
      (rsGlobal st).
Proof.
  revert st. induction shards as [|[key' shard'] shards IH]; intros st Hkey.
  - simpl. rewrite !app_nil_r. by destruct st.
  - unfold objectKeys in Hkey. rewrite fmap_cons, not_elem_of_cons in Hkey.
    destruct Hkey as [Hne Hkey]. simpl in Hne.
    cbn [resolverLoop]. rewrite (proj2 (String.eqb_neq key' key)) by done.
    rewrite IH by done. cbn [rsTestMatch rsCollectCoverageFrom rsGlobal].
    rewrite fmap_cons, !bind_cons, <-!app_assoc. done.
Qed.

Lemma truthyProperty_own (shards : Registry) key :
  key ∈ objectKeys shards → truthyProperty shards key = true.
Proof.
  intros Hkey. unfold truthyProperty. by rewrite bool_decide_eq_true_2.
Qed.

Lemma objectKeys_lookup (shards : Registry) (k : nat) key shard :
  shards !! k = Some (key, shard) → key ∈ objectKeys shards.
Proof.
  intros Hk. unfold objectKeys. apply list_elem_of_fmap.
  exists (key, shard). split; [done|]. by eapply list_elem_of_lookup_2.
Qed.

(** The configuration resolved for the entry at position [k]. *)
Lemma resolve_target (shards : Registry) (k : nat) key shard fallback :
  shards !! k = Some (key, shard) →
  key ∉ objectKeys (take k shards) →
  key ≠ "" →
  configureShardingOrFallbackTo shards (Some key) fallback
  = Return (mkSubconfig
      (Some (reverse (((take k shards).*2 ≫= testMatchExclusions)
                        ++ testMatchInclusions shard)))
      (Some (reverse (fallbackExclusions fallback
                        ++ ((take k shards).*2 ≫= coverageExclusions)
                        ++ coverageInclusions shard)))
      (Some (mkCoverageThreshold
               (Some (match threshold shard with
                      | Some t => spreadThreshold (baselineThreshold fallback) t
                      | None => baselineThreshold fallback
                      end)) []))
      (Some ("./coverage/shard/" +:+ key))).
Proof.
  intros Hk Hfirst Hne. unfold configureShardingOrFallbackTo.
  destruct key as [|c key']; [done|].
  rewrite truthyProperty_own by (by eapply objectKeys_lookup).
  cbn [negb]. rewrite <-(take_drop_middle _ _ _ Hk) at 1 2 3.
  by rewrite resolverLoop_target.
Qed.

(** *** Which entries start with [!] *)

Lemma startsWithBang_normalizePattern pattern :
  startsWithBang (normalizePattern pattern ".ts") = startsWithBang pattern.
Proof.
  unfold normalizePattern. destruct pattern as [|c pattern]; [done|].
  cbn [endsWith replaceSpecTs].
  destruct (String.eqb_spec (String c pattern) ".spec.ts") as [[= -> ->]|_];
    [done|].
  by destruct (endsWith pattern ".spec.ts").
Qed.

Lemma exclusionEntries_app l1 l2 :
  exclusionEntries (l1 ++ l2) = exclusionEntries l1 ++ exclusionEntries l2.
Proof. apply List.filter_app. Qed.

Lemma exclusionEntries_reverse l :
  exclusionEntries (reverse l) = reverse (exclusionEntries l).
Proof.
  induction l as [|x l IH]; [done|].
  rewrite reverse_cons, exclusionEntries_app, IH. simpl.
  destruct (startsWithBang x); simpl.
  - by rewrite reverse_cons.
  - by rewrite app_nil_r.
Qed.

Lemma exclusionEntries_all l :
  Forall (λ e, startsWithBang e = true) l → exclusionEntries l = l.
Proof. induction 1 as [|x l Hx _ IH]; simpl; [done|]. by rewrite Hx, IH. Qed.

Lemma exclusionEntries_none l :
  Forall (λ e, startsWithBang e = false) l → exclusionEntries l = [].
Proof. induction 1 as [|x l Hx _ IH]; simpl; [done|]. by rewrite Hx. Qed.

Lemma exclusionEntries_idemp l :
  exclusionEntries (exclusionEntries l) = exclusionEntries l.
Proof.
  apply exclusionEntries_all, Forall_forall. intros e He.
  apply list_elem_of_In, filter_In in He. tauto.
Qed.

Lemma fallbackExclusions_bang fallback :
  exclusionEntries (fallbackExclusions fallback) = fallbackExclusions fallback.
Proof.
  unfold fallbackExclusions.
  destruct (collectCoverageFrom fallback); simpl; [|done].
  apply exclusionEntries_idemp.
Qed.

Lemma testMatchExclusions_bang (shards : list ShardConfig) :
  exclusionEntries (shards ≫= testMatchExclusions)
  = shards ≫= testMatchExclusions.
Proof.
  apply exclusionEntries_all, Forall_forall.
  intros e (shard & He & _)%list_elem_of_bind.
  by apply list_elem_of_fmap in He as (pattern & -> & _).
Qed.

Lemma coverageExclusions_bang (shards : list ShardConfig) :
  exclusionEntries (shards ≫= coverageExclusions)
  = shards ≫= coverageExclusions.
Proof.
  apply exclusionEntries_all, Forall_forall.
  intros e (shard & He & _)%list_elem_of_bind.
  by apply list_elem_of_fmap in He as (pattern & -> & _).
Qed.

Lemma testMatchInclusions_no_bang shard :
  exclusionEntries (testMatchInclusions shard) = [].
Proof.
  apply exclusionEntries_none, Forall_forall.
  by intros e (pattern & -> & _)%list_elem_of_fmap.
Qed.

Lemma coverageInclusions_no_bang shard :
  Forall (λ pattern, startsWithBang pattern = false) (matchPaths shard) →
  exclusionEntries (coverageInclusions shard) = [].
Proof.
  intros Hpaths. apply exclusionEntries_none, Forall_forall.
  intros e (pattern & -> & Hp)%list_elem_of_fmap.
  rewrite startsWithBang_normalizePattern.
  by apply (proj1 (Forall_forall _ _) Hpaths).
Qed.

Lemma target_is_first (shards : Registry) (k : nat) key shard :
  NoDup (objectKeys shards) →
  shards !! k = Some (key, shard) →
  key ∉ objectKeys (take k shards).
Proof.
  intros Hnodup Hk. unfold objectKeys in *.
  rewrite <-(take_drop_middle _ _ _ Hk), fmap_app, fmap_cons in Hnodup.
  apply NoDup_app in Hnodup as (_ & Hdisjoint & _).
  intros Hin. apply (Hdisjoint _ Hin). simpl. by left.
Qed.

(** *** The resolver's laws *)

Lemma exclusionEntries_coverageInclusions shard :
  exclusionEntries (coverageInclusions shard)
  = (λ pattern, normalizePattern pattern ".ts")
      <$> exclusionEntries (matchPaths shard).
Proof.
  unfold coverageInclusions.
  induction (matchPaths shard) as [|pattern patterns IH]; [done|].
  cbn [fmap list_fmap exclusionEntries List.filter].
  fold (exclusionEntries patterns).
  fold (exclusionEntries
          ((λ pattern, normalizePattern pattern ".ts") <$> patterns)).
  rewrite startsWithBang_normalizePattern.
  destruct (startsWithBang pattern); [rewrite fmap_cons|]; by rewrite IH.
Qed.

(** C5 (resolver exclusion law), as the code has it.  With the target at
    position [k] of a registry, the resolved [testMatch] is the target's
    own test-file normalizations followed by the test-file
    normalizations of the shards at positions below [k] as exclusions,
    so that its exclusion entries are exactly those of the shards below
    [k].  The resolved [collectCoverageFrom] is the target's own
    source-file normalizations, followed by the source-file
    normalizations of the shards below [k] as exclusions, followed by
    the exclusion patterns of the fallback configuration; its exclusion
    entries are those of the shards below [k], the fallback's exclusion
    patterns and, of the target's own normalizations, those of the match
    paths that themselves start with [!] (none when no match path of the
    target starts with [!]).  Each part is in reverse order of
    construction. *)
Theorem resolver_exclusions (shards : Registry) (k : nat) key shard fallback :
  NoDup (objectKeys shards) →
  shards !! k = Some (key, shard) →
  key ≠ "" →
  ∃ config matches coverage,
    configureShardingOrFallbackTo shards (Some key) fallback = Return config
    ∧ testMatch config = Some matches
    ∧ collectCoverageFrom config = Some coverage
    ∧ matches
      = reverse (testMatchInclusions shard)
        ++ reverse ((take k shards).*2 ≫= testMatchExclusions)
    ∧ exclusionEntries matches
      = reverse ((take k shards).*2 ≫= testMatchExclusions)
    ∧ coverage
      = reverse (coverageInclusions shard)
        ++ reverse ((take k shards).*2 ≫= coverageExclusions)
        ++ reverse (fallbackExclusions fallback)
    ∧ exclusionEntries coverage
      = reverse ((λ pattern, normalizePattern pattern ".ts")
                   <$> exclusionEntries (matchPaths shard))
        ++ reverse ((take k shards).*2 ≫= coverageExclusions)
        ++ reverse (fallbackExclusions fallback)
    ∧ (Forall (λ pattern, startsWithBang pattern = false) (matchPaths shard) →
       exclusionEntries coverage
       = reverse ((take k shards).*2 ≫= coverageExclusions)
         ++ reverse (fallbackExclusions fallback)).
Proof.
  intros Hnodup Hk Hne.
  pose proof (target_is_first _ _ _ _ Hnodup Hk) as Hfirst.
  eexists _, _, _. split; [by apply (resolve_target _ k _ shard)|].
  split; [done|]. split; [done|].
  rewrite !reverse_app, <-!app_assoc.
  split; [done|]. split; [|split; [done|split]].
  - rewrite exclusionEntries_app, !exclusionEntries_reverse.
    by rewrite testMatchInclusions_no_bang, testMatchExclusions_bang.
  - rewrite !exclusionEntries_app, !exclusionEntries_reverse.
    rewrite exclusionEntries_coverageInclusions.
    by rewrite coverageExclusions_bang, fallbackExclusions_bang.
  - intros Hpaths. rewrite !exclusionEntries_app, !exclusionEntries_reverse.
    rewrite coverageInclusions_no_bang by done.
    by rewrite coverageExclusions_bang, fallbackExclusions_bang.
Qed.

Lemma NoDup_testShards : NoDup (objectKeys testShards).
Proof. apply (bool_decide_unpack _). vm_compute. exact I. Defined.

Lemma resolver_exclusions_witness :
  ∃ config matches coverage,
    configureShardingOrFallbackTo testShards (Some "datasources-2")
      fallbackConfig = Return config
    ∧ testMatch config = Some matches
    ∧ collectCoverageFrom config = Some coverage
    ∧ matches
      = ["<rootDir>/lib/modules/datasource/**/*.spec.ts";
         "!**/lib/modules/datasource/[a-g]*/**/*.spec.ts"]
    ∧ exclusionEntries matches
      = ["!**/lib/modules/datasource/[a-g]*/**/*.spec.ts"]
    ∧ coverage
      = ["lib/modules/datasource/**/*.ts";
         "!lib/modules/datasource/[a-g]*/**/*.ts";
         "!lib/**/types.ts";
         "!lib/**/{__fixtures__,__mocks__,__testutil__,test}/**/*.{js,ts}";
         "!lib/**/*.{d,spec}.ts"]
    ∧ exclusionEntries coverage
      = ["!lib/modules/datasource/[a-g]*/**/*.ts";
         "!lib/**/types.ts";
         "!lib/**/{__fixtures__,__mocks__,__testutil__,test}/**/*.{js,ts}";
         "!lib/**/*.{d,spec}.ts"]
    ∧ (Forall (λ pattern, startsWithBang pattern = false)
         ["lib/modules/datasource"] →
       exclusionEntries coverage
       = ["!lib/modules/datasource/[a-g]*/**/*.ts";
          "!lib/**/types.ts";
          "!lib/**/{__fixtures__,__mocks__,__testutil__,test}/**/*.{js,ts}";
          "!lib/**/*.{d,spec}.ts"]).
Proof.
  apply (resolver_exclusions testShards 1 "datasources-2"
           (mkShardConfig ["lib/modules/datasource"]
              (Some (mkThreshold (Some 96.0) (Some 98.25)
                       (Some 99.35) (Some 99.35))%Q))
           fallbackConfig);
    [exact NoDup_testShards|reflexivity|discriminate].
Defined.

(** A target whose match path starts with [!]: its own source-file
    normalization counts among the exclusion entries. *)
Example resolve_bang_path :
  configureShardingOrFallbackTo
    [("a", mkShardConfig ["lib/a"] None); ("b", mkShardConfig ["!lib/b"] None)]
    (Some "b") (mkSubconfig None None None None)
  = Return (mkSubconfig
      (Some ["<rootDir>/!lib/b/**/*.spec.ts"; "!**/lib/a/**/*.spec.ts"])
      (Some ["!lib/b/**/*.ts"; "!lib/a/**/*.ts"])
      (Some (mkCoverageThreshold
               (Some (mkThreshold (Some 100) (Some 100)
                        (Some 100) (Some 100))%Q) []))
      (Some "./coverage/shard/b")).
Proof. reflexivity. Qed.

(** C5, as stated, fails: resolving the first shard of [testShards]
    against [fallbackConfig] excludes the fallback's own exclusion
    patterns, although no shard precedes the target. *)
Lemma resolver_exclusion_law_counterexample :
  ¬ ExclusionLawAsStated testShards 0 fallbackConfig.
Proof.
  intros Hlaw.
  destruct (Hlaw "datasources-1" _ _ eq_refl eq_refl) as [_ Hcoverage].
  destruct (Hcoverage "!lib/**/types.ts") as [Hin _].
  assert ("!lib/**/types.ts" ∈ (take 0 testShards).*2 ≫= coverageExclusions)
    as Hnil; [|by apply elem_of_nil in Hnil].
  apply Hin, list_elem_of_In. vm_compute. tauto.
Qed.

(** C6 (threshold default law), as the code has it.  Without an override
    the resolved threshold is the baseline on all four fields.  With an
    override, each field the override gives takes the override's value
    and each other field keeps the baseline; so a field that differs
    from the baseline is an overridden one. *)
Theorem threshold_resolution (shards : Registry) (k : nat) key shard fallback :
  NoDup (objectKeys shards) →
  shards !! k = Some (key, shard) →
  key ≠ "" →
  ∃ config resolved,
    configureShardingOrFallbackTo shards (Some key) fallback = Return config
    ∧ resolvedThreshold config = Some resolved
    ∧ (threshold shard = None →
       ∀ field, getField field resolved = Some (baseline fallback field))
    ∧ (∀ override, threshold shard = Some override →
       ∀ field,
         getField field resolved
         = Some (default (baseline fallback field) (getField field override))
         ∧ (getField field resolved ≠ Some (baseline fallback field) →
            is_Some (getField field override))).
Proof.
  intros Hnodup Hk Hne.
  pose proof (target_is_first _ _ _ _ Hnodup Hk) as Hfirst.
  eexists _, _. split; [by apply (resolve_target _ k _ shard)|].
  split; [done|]. split.
  - intros ->. by intros [].
  - intros override ->.
    assert (∀ field,
      getField field (spreadThreshold (baselineThreshold fallback) override)
      = Some (default (baseline fallback field) (getField field override)))
      as Hfield.
    { intros []; simpl;
        by match goal with |- context [?f override] => destruct (f override) end. }
    intros field. split; [done|]. rewrite Hfield.
    destruct (getField field override); [by eexists|done].
Qed.

Lemma threshold_resolution_witness :
  ∃ config resolved,
    configureShardingOrFallbackTo testShards (Some "datasources-1")
      fallbackConfig = Return config
    ∧ resolvedThreshold config = Some resolved
    ∧ (Some (mkThreshold (Some 96.95) None None None)%Q = None →
       ∀ field, getField field resolved = Some (baseline fallbackConfig field))
    ∧ (∀ override,
       Some (mkThreshold (Some 96.95) None None None)%Q = Some override →
       ∀ field,
         getField field resolved
         = Some (default (baseline fallbackConfig field)
                   (getField field override))
         ∧ (getField field resolved ≠ Some (baseline fallbackConfig field) →
            is_Some (getField field override))).
Proof.
  apply (threshold_resolution testShards 0 "datasources-1"
           (mkShardConfig ["lib/modules/datasource/[a-g]*"]
              (Some (mkThreshold (Some 96.95) None None None)%Q))
           fallbackConfig);
    [exact NoDup_testShards|reflexivity|discriminate].
Defined.

(** C6, as stated, fails where an override repeats the baseline: the
    shard [platform] (position 6) overrides [branches] with 97.5, and
    against a baseline of 97.5 the overridden field does not differ. *)
Lemma threshold_law_counterexample :
  ¬ ThresholdLawAsStated testShards 6 fallbackBranches975.
Proof.
  intros Hlaw.
  destruct (Hlaw "platform" _ _ _ _ eq_refl eq_refl eq_refl eq_refl Branches)
    as [_ Hdiffers].
  apply Hdiffers; [by eexists|done].
Qed.

(** C7 (fallback identity).  When [TEST_SHARD] is not set, or is set to
    the empty string, the resolver returns the fallback configuration
    as it is. *)
Theorem resolver_fallback_identity (shards : Registry) fallback :
  configureShardingOrFallbackTo shards None fallback = Return fallback
  ∧ configureShardingOrFallbackTo shards (Some "") fallback = Return fallback.
Proof. done. Qed.

(** *** Unknown shard names *)

(** A name that is not a registry key and is not inherited from
    [Object.prototype] is rejected, with a message that quotes it and
    lists the registry keys. *)
Theorem unknown_shard_throws (shards : Registry) key fallback :
  key ≠ "" →
  key ∉ objectKeys shards →
  key ∉ objectPrototypeKeys →
  configureShardingOrFallbackTo shards (Some key) fallback
  = Throw ("Unknown value for TEST_SHARD: " +:+ key
           +:+ " (possible values: "
           +:+ String.concat ", " (objectKeys shards) +:+ ")").
Proof.
  intros Hne Hkey Hproto. unfold configureShardingOrFallbackTo, truthyProperty.
  destruct key as [|c key']; [done|].
  by rewrite !bool_decide_eq_false_2.
Qed.

Lemma unknown_shard_throws_witness :
  configureShardingOrFallbackTo testShards (Some "nope") fallbackConfig
  = Throw ("Unknown value for TEST_SHARD: nope (possible values: "
           +:+ "datasources-1, datasources-2, managers-1, managers-2, "
           +:+ "managers-3, managers-4, platform, versioning, workers-1, "
           +:+ "workers-2, workers-3, workers-4, git-1, git-2, util, other)").
Proof.
  apply (unknown_shard_throws testShards "nope" fallbackConfig);
    [discriminate|..]; apply (bool_decide_unpack _); vm_compute; exact I.
Defined.

(** A name inherited from [Object.prototype] passes the membership test
    although it is no registry key; the loop then finds no target and
    excludes every shard. *)
Lemma resolve_inherited_name (shards : Registry) key fallback :
  key ≠ "" →
  key ∉ objectKeys shards →
  key ∈ objectPrototypeKeys →
  configureShardingOrFallbackTo shards (Some key) fallback
  = Return (mkSubconfig
      (Some (reverse (shards.*2 ≫= testMatchExclusions)))
      (Some (reverse (fallbackExclusions fallback
                        ++ (shards.*2 ≫= coverageExclusions))))
      (Some (mkCoverageThreshold (Some (baselineThreshold fallback)) []))
      (Some ("./coverage/shard/" +:+ key))).
Proof.
  intros Hne Hkey Hproto. unfold configureShardingOrFallbackTo, truthyProperty.
  destruct key as [|c key']; [done|].
  rewrite (bool_decide_eq_true_2 _ Hproto), orb_true_r. cbn [negb].
  by rewrite resolverLoop_no_target.
Qed.

(** C8 (unknown-shard error) fails on the code for [TEST_SHARD =
    constructor]: the name is no key of [testShards], yet no error is
    thrown and a configuration is returned that runs no test at all. *)
Theorem unknown_shard_constructor :
  ("constructor" ∉ objectKeys testShards)
  ∧ configureShardingOrFallbackTo testShards (Some "constructor") fallbackConfig
    = Return (mkSubconfig
        (Some (reverse (testShards.*2 ≫= testMatchExclusions)))
        (Some (reverse (fallbackExclusions fallbackConfig
                          ++ (testShards.*2 ≫= coverageExclusions))))
        (Some (mkCoverageThreshold
                 (Some (baselineThreshold fallbackConfig)) []))
        (Some "./coverage/shard/constructor")).
Proof.
  assert ("constructor" ∉ objectKeys testShards) as Hkey
    by (apply (bool_decide_unpack _); vm_compute; exact I).
  split; [done|]. apply resolve_inherited_name; [done|done|].
  apply (bool_decide_unpack _). vm_compute. exact I.
Qed.

(** ** The selector *)

Section SelectorFacts.
Variable minimatch : string → string → bool.
Implicit Types (shards : Registry) (file key : string).

(** One pass of the inner loop adds the responsible shard, if there is
    one, and nothing else. *)
Lemma scanShards_responsible shards file (acc : gset string) :
  scanShards minimatch shards file acc
  = match responsibleShard minimatch shards file with
    | Some key => {[key]} ∪ acc
    | None => acc
    end.
Proof.
  unfold responsibleShard.
  induction shards as [|[key shard] shards IH]; [done|].
  cbn [scanShards list_find snd].
  destruct (shardMatches minimatch file shard) eqn:Hm; [done|].
  cbn [decide Is_true_dec]. rewrite IH.
  by destruct (list_find _ shards) as [[??]|].
Qed.

Lemma responsibleShard_Some shards file key :
  responsibleShard minimatch shards file = Some key ↔
  ∃ j shard,
    shards !! j = Some (key, shard) ∧ firstMatchAt minimatch shards file j.
Proof.
  unfold responsibleShard, firstMatchAt. split.
  - destruct (list_find _ shards) as [[j [key' shard]]|] eqn:Hfind; [|done].
    simpl. intros [= ->]. apply list_find_Some in Hfind as (Hj & Hm & Hfirst).
    exists j, shard. split; [done|]. split; [by exists (key, shard)|].
    intros i entry Hi Hlt. by eapply Hfirst.
  - intros (j & shard & Hj & [(entry & Hj' & Hm) Hfirst]).
    rewrite Hj in Hj'. injection Hj' as <-.
    assert (list_find (λ entry, shardMatches minimatch file entry.2) shards
            = Some (j, (key, shard))) as ->; [|done].
    apply list_find_Some. split; [done|]. split; [done|].
    intros i entry Hi Hlt. by eapply Hfirst.
Qed.

(** A file that some shard matches has a responsible shard, at or
    before the position of any shard that matches it. *)
Lemma responsibleShard_before shards file (i : nat) entry :
  shards !! i = Some entry →
  shardMatches minimatch file entry.2 →
  ∃ (i' : nat) entry',
    (i' ≤ i)%nat
    ∧ shards !! i' = Some entry'
    ∧ firstMatchAt minimatch shards file i'
    ∧ responsibleShard minimatch shards file = Some entry'.1.
Proof.
  intros Hi Hm. unfold responsibleShard.
  destruct (list_find (λ entry, shardMatches minimatch file entry.2) shards)
    as [[i' entry']|] eqn:Hfind.
  - apply list_find_Some in Hfind as (Hi' & Hm' & Hfirst).
    exists i', entry'. split; [|split; [done|split; [|done]]].
    + destruct (decide (i' ≤ i)%nat) as [|Hgt]; [done|].
      destruct (Hfirst i entry Hi ltac:(lia) Hm).
    + split; [by exists entry'|]. intros j e Hj Hlt. by eapply Hfirst.
  - apply list_find_None in Hfind.
    destruct (proj1 (Forall_lookup _ _) Hfind i entry Hi Hm).
Qed.

Lemma matchingShards_fold shards (files : list string) (acc : gset string) key :
  key ∈ foldl (λ acc file, scanShards minimatch shards file acc) acc files ↔
  key ∈ acc
  ∨ ∃ file, file ∈ files ∧ responsibleShard minimatch shards file = Some key.
Proof.
  revert acc. induction files as [|file files IH]; intros acc; simpl.
  - split; [by left|]. intros [?|(? & []%elem_of_nil & _)]; done.
  - rewrite IH, scanShards_responsible. setoid_rewrite elem_of_cons.
    destruct (responsibleShard minimatch shards file) as [key'|] eqn:Hr.
    + rewrite elem_of_union, elem_of_singleton. split.
      * intros [[->|?]|(f & ? & ?)]; [right; exists file; auto|by left|].
        right. exists f. auto.
      * intros [?|(f & [->|?] & ?)]; [by left; right| |right; exists f; auto].
        left; left. congruence.
    + split.
      * intros [?|(f & ? & ?)]; [by left|]. right. exists f. auto.
      * intros [?|(f & [->|?] & ?)]; [by left|congruence|].
        right. exists f. auto.
Qed.

(** A shard is selected when it is responsible for a changed file. *)
Lemma getMatchingShards_elem shards (files : list string) key :
  key ∈ getMatchingShards minimatch shards files ↔
  ∃ file, file ∈ files ∧ responsibleShard minimatch shards file = Some key.
Proof.
  unfold getMatchingShards.
  rewrite list_elem_of_In, filter_In, <-list_elem_of_In, bool_decide_eq_true.
  rewrite matchingShards_fold. split.
  - intros [_ [[]%not_elem_of_empty|?]]. done.
  - intros (file & Hfile & Hr). split; [|right; by exists file].
    apply responsibleShard_Some in Hr as (j & shard & Hj & _).
    by eapply objectKeys_lookup.
Qed.

Lemma filter_sublist {A} (f : A → bool) (l : list A) :
  List.filter f l `sublist_of` l.
Proof.
  induction l as [|x l IH]; simpl; [done|].
  destruct (f x); by constructor.
Qed.

Lemma filter_empty_selection (keys : list string) :
  List.filter (λ shard, bool_decide (shard ∈ (∅ : gset string))) keys = [].
Proof.
  induction keys as [|key keys IH]; [done|]. cbn [List.filter].
  by rewrite bool_decide_eq_false_2 by set_solver.
Qed.

(** The selection depends on the changed files only as a set. *)
Lemma getMatchingShards_ext shards (files files' : list string) :
  (∀ file, file ∈ files ↔ file ∈ files') →
  getMatchingShards minimatch shards files
  = getMatchingShards minimatch shards files'.
Proof.
  intros Hsame. unfold getMatchingShards. apply List.filter_ext. intros key.
  apply bool_decide_ext. rewrite !matchingShards_fold.
  by setoid_rewrite Hsame.
Qed.

(** *** The selector's laws *)

(** C4 (selector exclusivity), as the code has it.  Each file adds at
    most one shard to the selection: the first-declared shard one of
    whose patterns matches it.  So a file that matches a shard at
    position [i] and a shard at a later position [j] is attributed to
    the first matching shard, which stands at or before [i] and is the
    shard at [i] when no earlier shard matches; and a shard is selected
    exactly when, at some position, it is the first shard matching some
    changed file. *)
Theorem selector_first_match shards :
  (∀ file (acc : gset string),
     scanShards minimatch shards file acc
     = match responsibleShard minimatch shards file with
       | Some key => {[key]} ∪ acc
       | None => acc
       end)
  ∧ (∀ (i j : nat) s1 shard1 s2 shard2 file,
       (i < j)%nat →
       shards !! i = Some (s1, shard1) →
       shards !! j = Some (s2, shard2) →
       shardMatches minimatch file shard1 →
       shardMatches minimatch file shard2 →
       ∃ (i' : nat) s shard,
         (i' ≤ i)%nat
         ∧ shards !! i' = Some (s, shard)
         ∧ firstMatchAt minimatch shards file i'
         ∧ responsibleShard minimatch shards file = Some s
         ∧ (firstMatchAt minimatch shards file i →
            responsibleShard minimatch shards file = Some s1))
  ∧ (∀ files s2,
       s2 ∈ getMatchingShards minimatch shards files ↔
       ∃ file (j : nat) shard2,
         file ∈ files
         ∧ shards !! j = Some (s2, shard2)
         ∧ firstMatchAt minimatch shards file j).
Proof.
  split; [by apply scanShards_responsible|]. split.
  - intros i j s1 shard1 s2 shard2 file Hlt Hi Hj Hm1 Hm2.
    destruct (responsibleShard_before shards file i _ Hi Hm1)
      as (i' & [s shard] & Hle & Hi' & Hfirst & Hr).
    exists i', s, shard. repeat (split; [done|]).
    intros Hfirst_i. apply responsibleShard_Some. by exists i, shard1.
  - intros files s2. rewrite getMatchingShards_elem. split.
    + intros (file & Hfile & (j & shard2 & Hj & Hfirst)%responsibleShard_Some).
      by exists file, j, shard2.
    + intros (file & j & shard2 & Hfile & Hj & Hfirst).
      exists file. split; [done|]. apply responsibleShard_Some.
      by exists j, shard2.
Qed.

(** C9 (canonical order and the empty edge).  The selector returns the
    registry keys that are responsible for some changed file, that is,
    the keys of the shards that are the first to match one of the
    files: these and no others, each once, in registry order, whatever
    the order of the changed files; no changed file selects no shard. *)
Theorem selector_canonical_order shards (files : list string) :
  NoDup (objectKeys shards) →
  getMatchingShards minimatch shards files
  = List.filter
      (λ key,
         existsb
           (λ file,
              bool_decide (responsibleShard minimatch shards file = Some key))
           files)
      (objectKeys shards)
  ∧ (∀ key,
       key ∈ getMatchingShards minimatch shards files ↔
       ∃ file (j : nat) shard,
         file ∈ files
         ∧ shards !! j = Some (key, shard)
         ∧ firstMatchAt minimatch shards file j)
  ∧ NoDup (getMatchingShards minimatch shards files)
  ∧ getMatchingShards minimatch shards files `sublist_of` objectKeys shards
  ∧ (∀ files', files' ≡ₚ files →
       getMatchingShards minimatch shards files'
       = getMatchingShards minimatch shards files)
  ∧ getMatchingShards minimatch shards [] = [].
Proof.
  intros Hnodup. split; [|split; [|split; [|split; [|split]]]].
  - unfold getMatchingShards. apply List.filter_ext. intros key.
    apply eq_true_iff_eq.
    rewrite bool_decide_eq_true, matchingShards_fold, existsb_exists.
    split.
    + intros [[]%not_elem_of_empty|(file & Hfile & Hr)].
      exists file. split; [by apply list_elem_of_In|].
      by apply bool_decide_eq_true.
    + intros (file & Hfile%list_elem_of_In & Hr%bool_decide_eq_true).
      right. by exists file.
  - intros key. rewrite getMatchingShards_elem. split.
    + intros (file & Hfile & (j & shard & Hj & Hfirst)%responsibleShard_Some).
      by exists file, j, shard.
    + intros (file & j & shard & Hfile & Hj & Hfirst).
      exists file. split; [done|]. apply responsibleShard_Some.
      by exists j, shard.
  - eapply sublist_NoDup; [done|apply filter_sublist].
  - apply filter_sublist.
  - intros files' Hperm. apply getMatchingShards_ext. intros file.
    by rewrite Hperm.
  - apply filter_empty_selection.
Qed.

End SelectorFacts.

(** *** The selector on [testShards] *)

Example select_registry_order :
  getMatchingShards dirGlob testShards
    ["lib/util/git/auth.ts"; "lib/modules/platform/gitlab/index.ts";
     "lib/util/git/url.ts"]
  = ["platform"; "git-2"].
Proof. vm_compute. reflexivity. Qed.

Example select_outside_lib :
  getMatchingShards dirGlob testShards ["docs/usage/index.md"] = [].
Proof. vm_compute. reflexivity. Qed.

Lemma selector_first_match_witness :
  ∃ (i' : nat) s shard,
    (i' ≤ 14)%nat
    ∧ testShards !! i' = Some (s, shard)
    ∧ firstMatchAt dirGlob testShards "lib/util/git/auth.ts" i'
    ∧ responsibleShard dirGlob testShards "lib/util/git/auth.ts" = Some s
    ∧ (firstMatchAt dirGlob testShards "lib/util/git/auth.ts" 14 →
       responsibleShard dirGlob testShards "lib/util/git/auth.ts"
       = Some "util").
Proof.
  eapply (proj1 (proj2 (selector_first_match dirGlob testShards))
            14%nat 15%nat "util" _ "other" _ "lib/util/git/auth.ts");
    [lia|reflexivity|reflexivity|vm_compute; exact I|vm_compute; exact I].
Defined.

(** C4, as stated, fails: [lib/util/git/auth.ts] matches both [util]
    (position 14) and [other] (position 15) of [testShards], and is
    attributed to neither of them but to [git-2], which precedes
    both. *)
Lemma selector_exclusivity_counterexample :
  ¬ ExclusivityAsStated dirGlob testShards.
Proof.
  intros Hlaw.
  specialize (Hlaw 14%nat 15%nat "util" _ "other" _ "lib/util/git/auth.ts"
                ltac:(lia) eq_refl eq_refl I I).
  vm_compute in Hlaw. discriminate.
Qed.

Lemma selector_canonical_order_witness :
  getMatchingShards dirGlob testShards
    ["lib/util/git/auth.ts"; "lib/modules/platform/gitlab/index.ts"]
  = List.filter
      (λ key,
         existsb
           (λ file,
              bool_decide (responsibleShard dirGlob testShards file = Some key))
           ["lib/util/git/auth.ts"; "lib/modules/platform/gitlab/index.ts"])
      (objectKeys testShards)
  ∧ (∀ key,
       key ∈ getMatchingShards dirGlob testShards
               ["lib/util/git/auth.ts";
                "lib/modules/platform/gitlab/index.ts"] ↔
       ∃ file (j : nat) shard,
         file ∈ ["lib/util/git/auth.ts";
                 "lib/modules/platform/gitlab/index.ts"]
         ∧ testShards !! j = Some (key, shard)
         ∧ firstMatchAt dirGlob testShards file j)
  ∧ NoDup (getMatchingShards dirGlob testShards
             ["lib/util/git/auth.ts"; "lib/modules/platform/gitlab/index.ts"])
  ∧ getMatchingShards dirGlob testShards
      ["lib/util/git/auth.ts"; "lib/modules/platform/gitlab/index.ts"]
    `sublist_of` objectKeys testShards
  ∧ (∀ files',
       files' ≡ₚ ["lib/util/git/auth.ts";
                   "lib/modules/platform/gitlab/index.ts"] →
       getMatchingShards dirGlob testShards files'
       = getMatchingShards dirGlob testShards
           ["lib/util/git/auth.ts"; "lib/modules/platform/gitlab/index.ts"])
  ∧ getMatchingShards dirGlob testShards [] = [].
Proof.
  apply (selector_canonical_order dirGlob testShards
           ["lib/util/git/auth.ts"; "lib/modules/platform/gitlab/index.ts"]).
  exact NoDup_testShards.
Defined.

(** * Further properties *)

(** ** Strings *)

Lemma string_app_nil_l (b : string) : "" +:+ b = b.
Proof. reflexivity. Qed.

Lemma string_app_cons (x : ascii) (a b : string) :
  String x a +:+ b = String x (a +:+ b).
Proof. reflexivity. Qed.

Lemma string_app_assoc (a b c : string) : (a +:+ b) +:+ c = a +:+ b +:+ c.
Proof.
  induction a as [|x a IH]; [done|]. rewrite !string_app_cons. by f_equal.
Qed.

Lemma string_app_length (a b : string) :
  String.length (a +:+ b) = (String.length a + String.length b)%nat.
Proof.
  induction a as [|x a IH]; [done|]. rewrite string_app_cons. simpl.
  by f_equal.
Qed.

Lemma string_app_longer (a b : string) (x : ascii) : String x (a +:+ b) ≠ b.
Proof.
  intros Heq. apply (f_equal String.length) in Heq.
  simpl in Heq. rewrite string_app_length in Heq. lia.
Qed.

Lemma endsWith_refl (s : string) : endsWith s s = true.
Proof. destruct s; cbn [endsWith]; by rewrite String.eqb_refl. Qed.

Lemma endsWith_app (a b : string) : endsWith (a +:+ b) b = true.
Proof.
  induction a as [|x a IH]; [apply endsWith_refl|].
  rewrite string_app_cons. cbn [endsWith].
  rewrite IH. by destruct (String.eqb _ _).
Qed.

Lemma endsWith_inv (s suffix : string) :
  endsWith s suffix = true → ∃ a, s = a +:+ suffix.
Proof.
  induction s as [|x s IH]; cbn [endsWith].
  - destruct suffix; [by exists ""|done].
  - destruct (String.eqb_spec (String x s) suffix) as [<-|_]; [by exists ""|].
    intros [a ->]%IH. by exists (String x a).
Qed.

Lemma replaceSpecTs_app (a replacement : string) :
  replaceSpecTs (a +:+ ".spec.ts") replacement = a +:+ replacement.
Proof.
  induction a as [|x a IH]; [done|].
  rewrite !string_app_cons. cbn [replaceSpecTs].
  rewrite (proj2 (String.eqb_neq _ _) (string_app_longer a ".spec.ts" x)).
  by rewrite IH.
Qed.

(** ** More on [normalizePattern] *)

(** Whatever the pattern, its normalization ends with the suffix asked
    for, [.ts] or [.spec.ts]. *)
Theorem normalizePattern_ends_with_suffix (pattern suffix : string) :
  suffix = ".ts" ∨ suffix = ".spec.ts" →
  endsWith (normalizePattern pattern suffix) suffix = true.
Proof.
  intros _. unfold normalizePattern.
  destruct (endsWith pattern ".spec.ts") eqn:Hfile.
  - apply endsWith_inv in Hfile as [a ->].
    rewrite replaceSpecTs_app. apply endsWith_app.
  - rewrite <-string_app_assoc. apply endsWith_app.
Qed.

Lemma normalizePattern_ends_with_suffix_witness :
  endsWith (normalizePattern "lib/modules/datasource/[a-g]*" ".spec.ts")
    ".spec.ts" = true.
Proof.
  apply (normalizePattern_ends_with_suffix "lib/modules/datasource/[a-g]*"
           ".spec.ts").
  by right.
Defined.

(** A single-test-file pattern [base.spec.ts] normalizes to [base]
    followed by the suffix: to itself as a test file, to [base.ts] as a
    source file. *)
Theorem normalizePattern_of_test_file (base suffix : string) :
  suffix = ".ts" ∨ suffix = ".spec.ts" →
  normalizePattern (base +:+ ".spec.ts") suffix = base +:+ suffix.
Proof.
  intros _. unfold normalizePattern.
  by rewrite endsWith_app, replaceSpecTs_app.
Qed.

Lemma normalizePattern_of_test_file_witness :
  normalizePattern ("lib/util/git/index" +:+ ".spec.ts") ".ts"
  = "lib/util/git/index" +:+ ".ts".
Proof.
  apply (normalizePattern_of_test_file "lib/util/git/index" ".ts").
  by left.
Defined.

(** The source-file glob of a pattern is its test-file glob with the
    final [.spec.ts] replaced by [.ts]: coverage is collected for the
    files named like the tests that run. *)
Theorem normalizePattern_source_of_test (pattern : string) :
  normalizePattern pattern ".ts"
  = replaceSpecTs (normalizePattern pattern ".spec.ts") ".ts".
Proof.
  unfold normalizePattern.
  destruct (endsWith pattern ".spec.ts") eqn:Hfile.
  - apply endsWith_inv in Hfile as [a ->]. by rewrite !replaceSpecTs_app.
  - by rewrite <-!string_app_assoc, replaceSpecTs_app.
Qed.

(** ** More on [scheduleItems] *)

Section PartitionEdges.
Context {T : Type}.
Implicit Types items : list T.

Lemma scheduleItems_no_instances items (availableInstances : Z) :
  Z.min (Z.of_nat (length items)) availableInstances ≤ 0 →
  scheduleItems items availableInstances = [].
Proof.
  intros Hmin. unfold scheduleItems, JS.arrayFrom.
  by rewrite !seqZ_nil by done.
Qed.

(** Every input with a positive cap is cut into consecutive pieces. *)
Lemma scheduleItems_concat items (m : Z) :
  1 ≤ m → concat (scheduleItems items m) = items.
Proof.
  intros Hm. destruct (decide (items = [])) as [->|Hne].
  { by rewrite scheduleItems_no_instances by (simpl; lia). }
  pose proof (length_nonempty _ Hne).
  rewrite scheduleItems_reshape by done.
  apply concat_reshape. rewrite sum_balancedSizes by lia. lia.
Qed.

Lemma scheduleItems_length items (m : Z) :
  1 ≤ m →
  length (scheduleItems items m)
  = Z.to_nat (Z.min (Z.of_nat (length items)) m).
Proof.
  intros Hm. destruct (decide (items = [])) as [->|Hne].
  { rewrite scheduleItems_no_instances by (simpl; lia). simpl. lia. }
  rewrite <-(length_fmap length), scheduleItems_lengths by done.
  by rewrite length_fmap, length_balancedSizes.
Qed.

Lemma scheduleItems_groups_nonempty items (m : Z) :
  1 ≤ m → Forall (λ group, group ≠ []) (scheduleItems items m).
Proof.
  intros Hm. destruct (decide (items = [])) as [->|Hne].
  { by rewrite scheduleItems_no_instances by (simpl; lia). }
  pose proof (length_nonempty _ Hne) as Hlen.
  apply Forall_forall. intros g Hg ->.
  assert (length (@nil T) ∈ length <$> scheduleItems items m) as Hin
    by (by apply list_elem_of_fmap_2).
  rewrite scheduleItems_lengths in Hin by done.
  apply list_elem_of_fmap in Hin as (s & Hgs & Hs).
  assert (1 ≤ s); [|simpl in *; lia].
  eapply (proj1 (Forall_forall _ _)); [|exact Hs].
  apply balancedSizes_pos. lia.
Qed.

(** With no runner available, or a negative number of them, nothing is
    scheduled: the call returns no group at all and the items are
    dropped without an error. *)
Theorem scheduleItems_nonpositive items (availableInstances : Z) :
  availableInstances ≤ 0 → scheduleItems items availableInstances = [].
Proof. intros Ha. apply scheduleItems_no_instances. lia. Qed.

Lemma reshape_ones items :
  reshape (replicate (length items) 1%nat) items = (λ x, [x]) <$> items.
Proof.
  induction items as [|x items IH]; [done|].
  simpl. rewrite drop_0. by rewrite IH.
Qed.

(** With at least as many runners as items, every item is scheduled
    alone, in order. *)
Theorem scheduleItems_singletons items (availableInstances : Z) :
  Z.of_nat (length items) ≤ availableInstances →
  scheduleItems items availableInstances = (λ x, [x]) <$> items.
Proof.
  intros Ha. destruct (decide (items = [])) as [->|Hne].
  { by rewrite scheduleItems_no_instances by (simpl; lia). }
  pose proof (length_nonempty _ Hne) as Hlen.
  rewrite scheduleItems_reshape by (done || lia). rewrite Z.min_l by done.
  rewrite <-reshape_ones. f_equal. symmetry. apply replicate_as_Forall.
  split; [by rewrite length_fmap, length_balancedSizes, Nat2Z.id|].
  apply Forall_fmap, Forall_lookup. intros i s [_ ->]%balancedSizes_lookup.
  rewrite Z_mod_same_full, decide_True by done. simpl.
  assert (ceilQuot (Z.of_nat (length items)) (Z.of_nat (length items)) = 1)
    as ->; [|done].
  unfold ceilQuot. symmetry.
  apply (Z.div_unique _ _ _ (Z.of_nat (length items) - 1)); lia.
Qed.

(** Larger groups come first: the sizes never grow along the result. *)
Theorem scheduleItems_sizes_decrease items (maxGroups : Z) (i j : nat) g1 g2 :
  items ≠ [] → 1 ≤ maxGroups → (i ≤ j)%nat →
  scheduleItems items maxGroups !! i = Some g1 →
  scheduleItems items maxGroups !! j = Some g2 →
  (length g2 ≤ length g1)%nat.
Proof.
  intros Hne Hm Hij Hi Hj.
  pose proof (length_nonempty _ Hne) as Hlen.
  pose proof (scheduleItems_lengths items maxGroups Hne Hm) as Hsizes.
  set (n := Z.of_nat (length items)) in *.
  set (k := Z.min n maxGroups) in *.
  assert (1 ≤ k ≤ n) as Hk by lia.
  assert (∀ (i : nat) g, scheduleItems items maxGroups !! i = Some g →
            ∃ s, balancedSizes n k !! i = Some s ∧ 1 ≤ s
                 ∧ Z.of_nat (length g) = s) as Hsize.
  { intros i' g Hg.
    assert ((length <$> scheduleItems items maxGroups) !! i' = Some (length g))
      as Hlookup by (by rewrite list_lookup_fmap, Hg).
    rewrite Hsizes, list_lookup_fmap in Hlookup.
    destruct (balancedSizes n k !! i') as [s|] eqn:Hs; [|done].
    injection Hlookup as Hlookup. exists s. split; [done|].
    assert (1 ≤ s); [|lia].
    eapply (Forall_lookup_1 _ _ _ _ (balancedSizes_pos n k Hk)); done. }
  destruct (Hsize i g1 Hi) as (s1 & [_ ->]%balancedSizes_lookup & _ & Hg1).
  destruct (Hsize j g2 Hj) as (s2 & [_ ->]%balancedSizes_lookup & _ & Hg2).
  repeat case_decide; lia.
Qed.

End PartitionEdges.

Lemma scheduleItems_nonpositive_witness :
  scheduleItems ["util"; "other"] 0 = [].
Proof. apply (scheduleItems_nonpositive ["util"; "other"] 0). lia. Defined.

Lemma scheduleItems_singletons_witness :
  scheduleItems ["git-1"; "git-2"; "util"] 16
  = [["git-1"]; ["git-2"]; ["util"]].
Proof.
  apply (scheduleItems_singletons ["git-1"; "git-2"; "util"] 16). simpl. lia.
Defined.

Lemma scheduleItems_sizes_decrease_witness :
  (length (seqZ 8 3) ≤ length (seqZ 1 4))%nat.
Proof.
  apply (scheduleItems_sizes_decrease (seqZ 1 10) 3 0 2);
    [vm_compute; congruence|lia|lia|reflexivity|reflexivity].
Defined.

(** ** More on the resolver *)

Lemma spreadThreshold_populated (base override : Threshold) :
  (∀ field, is_Some (getField field base)) →
  ∀ field, is_Some (getField field (spreadThreshold base override)).
Proof.
  intros Hbase field. pose proof (Hbase field) as Hfield.
  destruct field; simpl in *;
    match goal with |- context [?f override] => by destruct (f override) end.
Qed.

Lemma resolverLoop_populated (shards : Registry) key st :
  (∀ field, is_Some (getField field (rsGlobal st))) →
  ∀ field, is_Some (getField field (rsGlobal (resolverLoop shards key st))).
Proof.
  revert st. induction shards as [|[key' shard] shards IH]; intros st Hst;
    [done|].
  cbn [resolverLoop]. destruct (String.eqb key' key).
  - cbn [rsGlobal]. destruct (threshold shard); [|done].
    by apply spreadThreshold_populated.
  - by apply IH.
Qed.

(** What a sharded run returns, whenever it returns. *)
Lemma resolve_sharded_inv (shards : Registry) key fallback config :
  key ≠ "" →
  configureShardingOrFallbackTo shards (Some key) fallback = Return config →
  ∃ st,
    st = resolverLoop shards key
           (mkResolverState [] (fallbackExclusions fallback)
              (baselineThreshold fallback))
    ∧ config = mkSubconfig
        (Some (reverse (rsTestMatch st)))
        (Some (reverse (rsCollectCoverageFrom st)))
        (Some (mkCoverageThreshold (Some (rsGlobal st)) []))
        (Some ("./coverage/shard/" +:+ key)).
Proof.
  intros Hne. unfold configureShardingOrFallbackTo.
  destruct key as [|c key']; [done|].
  destruct (truthyProperty shards (String c key')); cbn [negb]; [|done].
  intros [= <-]. by eexists.
Qed.

(** In a sharded run every field of the resolved threshold is set,
    whatever the fallback and the override leave out. *)
Theorem resolved_threshold_populated (shards : Registry) key fallback config :
  key ≠ "" →
  configureShardingOrFallbackTo shards (Some key) fallback = Return config →
  ∃ resolved,
    resolvedThreshold config = Some resolved
    ∧ ∀ field, is_Some (getField field resolved).
Proof.
  intros Hne (st & -> & ->)%resolve_sharded_inv; [|done].
  eexists. split; [done|]. apply resolverLoop_populated. by intros [].
Qed.

Lemma resolved_threshold_populated_witness :
  ∃ resolved,
    resolvedThreshold
      (mkSubconfig
         (Some ["<rootDir>/lib/modules/manager/**/*.spec.ts"])
         (Some ["lib/modules/manager/**/*.ts"])
         (Some (mkCoverageThreshold
                  (Some (mkThreshold (Some 100) (Some 100)
                           (Some 100) (Some 100))%Q) []))
         (Some "./coverage/shard/managers-4"))
    = Some resolved
    ∧ ∀ field, is_Some (getField field resolved).
Proof.
  apply (resolved_threshold_populated
           [("managers-4", mkShardConfig ["lib/modules/manager"] None)]
           "managers-4" (mkSubconfig None None None None));
    [discriminate|reflexivity].
Defined.

(** The shards declared after the target have no influence on the
    resolved configuration. *)
Theorem resolver_ignores_later_shards (before after : Registry) key shard
    fallback :
  key ≠ "" →
  key ∉ objectKeys before →
  configureShardingOrFallbackTo (before ++ (key, shard) :: after) (Some key)
    fallback
  = configureShardingOrFallbackTo (before ++ [(key, shard)]) (Some key)
      fallback.
Proof.
  intros Hne Hfirst.
  assert (∀ rest : Registry,
    (before ++ (key, shard) :: rest) !! length before = Some (key, shard))
    as Hlookup by (intros; by apply list_lookup_middle).
  assert (∀ rest : Registry,
    take (length before) (before ++ (key, shard) :: rest) = before)
    as Htake by (intros; by rewrite take_app_length).
  rewrite (resolve_target _ (length before) key shard)
    by (by rewrite ?Htake).
  rewrite (resolve_target (before ++ [_]) (length before) key shard)
    by (by rewrite ?Htake).
  by rewrite !Htake.
Qed.

Lemma resolver_ignores_later_shards_witness :
  configureShardingOrFallbackTo
    ([("datasources-1", mkShardConfig ["lib/modules/datasource/[a-g]*"] None)]
     ++ ("datasources-2", mkShardConfig ["lib/modules/datasource"] None)
        :: [("other", mkShardConfig ["lib"] None)])
    (Some "datasources-2") fallbackConfig
  = configureShardingOrFallbackTo
      ([("datasources-1",
         mkShardConfig ["lib/modules/datasource/[a-g]*"] None)]
       ++ [("datasources-2", mkShardConfig ["lib/modules/datasource"] None)])
      (Some "datasources-2") fallbackConfig.
Proof.
  apply (resolver_ignores_later_shards
           [("datasources-1",
             mkShardConfig ["lib/modules/datasource/[a-g]*"] None)]
           [("other", mkShardConfig ["lib"] None)]
           "datasources-2" (mkShardConfig ["lib/modules/datasource"] None)
           fallbackConfig);
    [discriminate|].
  apply (bool_decide_unpack _). vm_compute. exact I.
Defined.

(** The resolved [testMatch] lists the target's own globs first, the
    last match path first, and then the exclusions of the earlier
    shards, the nearest shard first. *)
Theorem resolver_testMatch_order (shards : Registry) (k : nat) key shard
    fallback :
  NoDup (objectKeys shards) →
  shards !! k = Some (key, shard) →
  key ≠ "" →
  ∃ config,
    configureShardingOrFallbackTo shards (Some key) fallback = Return config
    ∧ testMatch config
      = Some (reverse (testMatchInclusions shard)
              ++ reverse ((take k shards).*2 ≫= testMatchExclusions)).
Proof.
  intros Hnodup Hk Hne.
  pose proof (target_is_first _ _ _ _ Hnodup Hk) as Hfirst.
  eexists. split; [by apply (resolve_target _ k _ shard)|].
  simpl. by rewrite reverse_app.
Qed.

Lemma resolver_testMatch_order_witness :
  ∃ config,
    configureShardingOrFallbackTo testShards (Some "workers-2") fallbackConfig
    = Return config
    ∧ testMatch config
      = Some (reverse
                (testMatchInclusions
                   (mkShardConfig
                      ["lib/workers/repository/onboarding";
                       "lib/workers/repository/process"]
                      (Some (mkThreshold (Some 98.73) None None None)%Q)))
              ++ reverse ((take 9 testShards).*2 ≫= testMatchExclusions)).
Proof.
  apply (resolver_testMatch_order testShards 9 "workers-2" _ fallbackConfig);
    [exact NoDup_testShards|reflexivity|discriminate].
Defined.

(** An override that sets all four fields is the resolved threshold,
    whatever the fallback says. *)
Theorem full_override_wins (shards : Registry) (k : nat) key shard override
    fallback :
  NoDup (objectKeys shards) →
  shards !! k = Some (key, shard) →
  key ≠ "" →
  threshold shard = Some override →
  (∀ field, is_Some (getField field override)) →
  ∃ config,
    configureShardingOrFallbackTo shards (Some key) fallback = Return config
    ∧ resolvedThreshold config = Some override.
Proof.
  intros Hnodup Hk Hne Hoverride Hfull.
  pose proof (target_is_first _ _ _ _ Hnodup Hk) as Hfirst.
  eexists. split; [by apply (resolve_target _ k _ shard)|].
  rewrite Hoverride. unfold resolvedThreshold. simpl. f_equal.
  destruct override as [b f l s].
  destruct (Hfull Branches) as [? Hb], (Hfull Functions) as [? Hf],
    (Hfull Lines) as [? Hl], (Hfull Statements) as [? Hs].
  simpl in *. by subst.
Qed.

Lemma full_override_wins_witness :
  ∃ config,
    configureShardingOrFallbackTo testShards (Some "git-2") fallbackConfig
    = Return config
    ∧ resolvedThreshold config
      = Some (mkThreshold (Some 98.65) (Some 93.9) (Some 98.4) (Some 98.4))%Q.
Proof.
  apply (full_override_wins testShards 13 "git-2"
           (mkShardConfig ["lib/util/git"]
              (Some (mkThreshold (Some 98.65) (Some 93.9)
                       (Some 98.4) (Some 98.4))%Q)));
    [exact NoDup_testShards|reflexivity|discriminate|reflexivity|].
  intros []; by eexists.
Defined.

(** Two sharded runs write their coverage to the same directory only
    when they run the same shard name. *)
Theorem coverageDirectory_per_shard (shards1 shards2 : Registry) key1 key2
    fallback1 fallback2 config1 config2 :
  key1 ≠ "" → key2 ≠ "" →
  configureShardingOrFallbackTo shards1 (Some key1) fallback1
    = Return config1 →
  configureShardingOrFallbackTo shards2 (Some key2) fallback2
    = Return config2 →
  coverageDirectory config1 = coverageDirectory config2 →
  key1 = key2.
Proof.
  intros Hne1 Hne2 (st1 & _ & ->)%resolve_sharded_inv
    (st2 & _ & ->)%resolve_sharded_inv; [|done..].
  simpl. intros [= Hdir]. by apply (inj (append _)) in Hdir.
Qed.

Lemma coverageDirectory_per_shard_witness : "util" = "util".
Proof.
  eapply (coverageDirectory_per_shard testShards testShards "util" "util"
            fallbackConfig fallbackConfig);
    [discriminate|discriminate|reflexivity|reflexivity|reflexivity].
Defined.

(** The resolver throws only for a name that is no registry key, and
    then always with the message that quotes the name and lists the
    keys. *)
Theorem resolver_throws_only_unknown (shards : Registry) shardKey fallback
    message :
  configureShardingOrFallbackTo shards shardKey fallback = Throw message →
  ∃ key,
    shardKey = Some key
    ∧ key ≠ ""
    ∧ (key ∉ objectKeys shards)
    ∧ message
      = "Unknown value for TEST_SHARD: " +:+ key
        +:+ " (possible values: "
        +:+ String.concat ", " (objectKeys shards) +:+ ")".
Proof.
  unfold configureShardingOrFallbackTo, truthyProperty.
  destruct shardKey as [[|c key']|]; [done| |done].
  case_bool_decide as Hkey; [done|].
  destruct (bool_decide _); cbn [orb negb]; [done|].
  intros [= <-]. by exists (String c key').
Qed.

Lemma resolver_throws_only_unknown_witness :
  ∃ key,
    Some "managers" = Some key
    ∧ key ≠ ""
    ∧ (key ∉ objectKeys testShards)
    ∧ ("Unknown value for TEST_SHARD: managers (possible values: "
       +:+ "datasources-1, datasources-2, managers-1, managers-2, "
       +:+ "managers-3, managers-4, platform, versioning, workers-1, "
       +:+ "workers-2, workers-3, workers-4, git-1, git-2, util, other)")
      = "Unknown value for TEST_SHARD: " +:+ key
        +:+ " (possible values: "
        +:+ String.concat ", " (objectKeys testShards) +:+ ")".
Proof.
  apply (resolver_throws_only_unknown testShards (Some "managers")
           fallbackConfig).
  reflexivity.
Defined.

(** ** More on the selector *)

Section SelectorMore.
Variable minimatch : string → string → bool.
Implicit Types (shards : Registry) (files : list string).

Lemma filter_sublist_mono {A} (f g : A → bool) (l : list A) :
  (∀ x, f x = true → g x = true) →
  List.filter f l `sublist_of` List.filter g l.
Proof.
  intros Hfg. induction l as [|x l IH]; simpl; [done|].
  destruct (f x) eqn:Hf.
  - rewrite (Hfg x Hf). by constructor.
  - destruct (g x); [by constructor|done].
Qed.

Lemma matchingShards_size shards files (acc : gset string) :
  (size (foldl (λ acc file, scanShards minimatch shards file acc) acc files)
   ≤ size acc + length files)%nat.
Proof.
  revert acc. induction files as [|file files IH]; intros acc; simpl; [lia|].
  etrans; [apply IH|]. rewrite scanShards_responsible.
  destruct (responsibleShard minimatch shards file) as [key|]; [|lia].
  destruct (decide (key ∈ acc)) as [Hin|Hout].
  - rewrite (subseteq_union_1_L {[key]} acc); [lia|].
    by apply singleton_subseteq_l.
  - rewrite size_union by (by apply disjoint_singleton_l).
    rewrite size_singleton. lia.
Qed.

(** No shard is selected exactly when no changed file matches a pattern
    of any shard. *)
Theorem selector_empty_iff shards files :
  getMatchingShards minimatch shards files = [] ↔
  ∀ file entry,
    file ∈ files → entry ∈ shards → ¬ shardMatches minimatch file entry.2.
Proof.
  split.
  - intros Hempty file entry Hfile [i Hi]%list_elem_of_lookup Hm.
    destruct (responsibleShard_before minimatch shards file i entry Hi Hm)
      as (_ & entry' & _ & _ & _ & Hr).
    assert (entry'.1 ∈ getMatchingShards minimatch shards files) as Hin
      by (apply getMatchingShards_elem; by exists file).
    rewrite Hempty in Hin. by apply elem_of_nil in Hin.
  - intros Hnone. apply elem_of_nil_inv. intros key Hkey.
    apply getMatchingShards_elem in Hkey as (file & Hfile & Hr).
    apply responsibleShard_Some in Hr
      as (j & shard & Hj & [(entry & Hj' & Hm) _]).
    apply (Hnone file entry Hfile); [|done].
    by eapply list_elem_of_lookup_2.
Qed.

(** The shards selected for two batches of changed files together are
    those selected for either batch. *)
Theorem selector_union shards files1 files2 key :
  key ∈ getMatchingShards minimatch shards (files1 ++ files2) ↔
  key ∈ getMatchingShards minimatch shards files1
  ∨ key ∈ getMatchingShards minimatch shards files2.
Proof.
  rewrite !getMatchingShards_elem. setoid_rewrite elem_of_app. split.
  - intros (file & [Hfile|Hfile] & Hr); [left|right]; by exists file.
  - intros [(file & Hfile & Hr)|(file & Hfile & Hr)]; exists file; auto.
Qed.

(** More changed files never deselect a shard: the selection for a
    part of the files is a sublist of the selection for all of them. *)
Theorem selector_monotone shards files files' :
  (∀ file, file ∈ files → file ∈ files') →
  getMatchingShards minimatch shards files
  `sublist_of` getMatchingShards minimatch shards files'.
Proof.
  intros Hsub. unfold getMatchingShards. apply filter_sublist_mono.
  intros key. rewrite !bool_decide_eq_true, !matchingShards_fold.
  intros [?|(file & Hfile & Hr)]; [by left|].
  right. exists file. auto.
Qed.

(** Each changed file selects at most one shard, so there are never
    more selected shards than changed files. *)
Theorem selector_bound shards files :
  NoDup (objectKeys shards) →
  (length (getMatchingShards minimatch shards files) ≤ length files)%nat.
Proof.
  intros Hnodup. unfold getMatchingShards.
  set (selected := foldl _ ∅ files).
  set (result := List.filter _ _).
  assert (NoDup result) as Hresult
    by (eapply sublist_NoDup; [done|apply filter_sublist]).
  assert (list_to_set result ⊆ selected) as Hsub.
  { intros key Hkey%elem_of_list_to_set.
    apply list_elem_of_In, filter_In in Hkey as [_ Hkey].
    by apply bool_decide_eq_true in Hkey. }
  apply subseteq_size in Hsub. rewrite size_list_to_set in Hsub by done.
  pose proof (matchingShards_size shards files ∅) as Hsize.
  rewrite size_empty in Hsize. fold selected in Hsize. lia.
Qed.

End SelectorMore.

Lemma selector_monotone_witness :
  getMatchingShards dirGlob testShards ["lib/util/git/auth.ts"]
  `sublist_of`
  getMatchingShards dirGlob testShards
    ["lib/modules/platform/gitlab/index.ts"; "lib/util/git/auth.ts"].
Proof.
  apply (selector_monotone dirGlob testShards ["lib/util/git/auth.ts"]
           ["lib/modules/platform/gitlab/index.ts"; "lib/util/git/auth.ts"]).
  intros file Hfile. apply elem_of_cons. by right.
Defined.

Lemma selector_bound_witness :
  (length (getMatchingShards dirGlob testShards
             ["lib/util/git/auth.ts"; "lib/util/git/url.ts"])
   ≤ length ["lib/util/git/auth.ts"; "lib/util/git/url.ts"])%nat.
Proof.
  apply (selector_bound dirGlob testShards
           ["lib/util/git/auth.ts"; "lib/util/git/url.ts"]).
  exact NoDup_testShards.
Defined.

(** ** The matrix builder *)

Lemma concat_sep_app (sep : string) (a b : list string) :
  a ≠ [] → b ≠ [] →
  String.concat sep (a ++ b)
  = String.concat sep a +:+ sep +:+ String.concat sep b.
Proof.
  intros Ha Hb. induction a as [|x [|y a] IH]; [done| |].
  - by destruct b.
  - change (String.concat sep ((x :: y :: a) ++ b))
      with (x +:+ sep +:+ String.concat sep ((y :: a) ++ b)).
    rewrite IH by done.
    change (String.concat sep (x :: y :: a))
      with (x +:+ sep +:+ String.concat sep (y :: a)).
    by rewrite !string_app_assoc.
Qed.

(** Joining the joined groups is joining all their members. *)
Lemma concat_sep_groups (sep : string) (groups : list (list string)) :
  Forall (λ group, group ≠ []) groups →
  String.concat sep (String.concat sep <$> groups)
  = String.concat sep (concat groups).
Proof.
  induction 1 as [|g gs Hg Hgs IH]; [done|].
  destruct gs as [|g' gs].
  - simpl. by rewrite app_nil_r.
  - change (String.concat sep (String.concat sep <$> g :: g' :: gs))
      with (String.concat sep g +:+ sep
            +:+ String.concat sep (String.concat sep <$> g' :: gs)).
    rewrite IH. cbn [concat]. rewrite (concat_sep_app sep g); [done|done|].
    apply Forall_cons in Hgs as [Hg' _]. by destruct g'.
Qed.

Section MatrixFacts.
Variable minimatch : string → string → bool.
Variable md5Hex : string → string.
Variable parseJSON : string → option ParsedValue.

Lemma filter_all {A} (P : A → Prop) `{!∀ x, Decision (P x)} (l : list A) :
  Forall P l → filter P l = l.
Proof.
  induction 1 as [|x l Hx _ IH]; [done|].
  by rewrite filter_cons_True, IH.
Qed.

Lemma filter_none {A} (P : A → Prop) `{!∀ x, Decision (P x)} (l : list A) :
  Forall (λ x, ¬ P x) l → filter P l = [].
Proof.
  induction 1 as [|x l Hx _ IH]; [done|].
  by rewrite filter_cons_False.
Qed.

Lemma groupsOf_block (os os' : RunsOn) (groups : list (list string)) :
  groupsOf os (imap (shardGroupAt md5Hex os' (length groups)) groups)
  = if decide (os' = os)
    then imap (shardGroupAt md5Hex os' (length groups)) groups
    else [].
Proof.
  unfold groupsOf. case_decide as Hos.
  - apply filter_all, Forall_forall.
    by intros g (i & shards & -> & _)%elem_of_lookup_imap.
  - apply filter_none, Forall_forall.
    by intros g (i & shards & -> & _)%elem_of_lookup_imap.
Qed.

(** The groups of one platform are built from its own partition. *)
Lemma groupsOf_buildShardGroups (os : RunsOn) shardKeys allPlatforms :
  groupsOf os (buildShardGroups md5Hex shardKeys allPlatforms)
  = if scheduledOn os allPlatforms
    then imap (shardGroupAt md5Hex os
                 (length (scheduleItems shardKeys (instanceCap os))))
           (scheduleItems shardKeys (instanceCap os))
    else [].
Proof.
  assert (∀ a b, groupsOf os (a ++ b) = groupsOf os a ++ groupsOf os b)
    as Happ by (intros; apply filter_app).
  assert (∀ f : RunsOn * list (list string) → list ShardGroup, [] ≫= f = [])
    as Hnil by done.
  unfold buildShardGroups, shardGrouping.
  destruct allPlatforms; rewrite ?bind_cons, Hnil, ?Happ;
    rewrite !groupsOf_block; destruct os; simpl; by rewrite ?app_nil_r.
Qed.

(** No platform gets more runner groups than its cap, nor more than
    there are shards to run: a scheduled platform gets
    [min(number of shards, cap)] groups, the others none. *)
Theorem matrix_group_count (os : RunsOn) shardKeys allPlatforms :
  Z.of_nat (length (groupsOf os
                      (buildShardGroups md5Hex shardKeys allPlatforms)))
  = if scheduledOn os allPlatforms
    then Z.min (Z.of_nat (length shardKeys)) (instanceCap os)
    else 0.
Proof.
  rewrite groupsOf_buildShardGroups.
  destruct (scheduledOn os allPlatforms); [|done].
  rewrite length_imap, scheduleItems_length by (by destruct os).
  destruct os; simpl; lia.
Qed.

(** On every scheduled platform the groups' shard lists, read in group
    order, are the shard keys: each shard runs in exactly one group, in
    registry order. *)
Theorem matrix_covers_shards (os : RunsOn) shardKeys allPlatforms :
  scheduledOn os allPlatforms = true →
  String.concat " "
    (group_shards
       <$> groupsOf os (buildShardGroups md5Hex shardKeys allPlatforms))
  = String.concat " " shardKeys.
Proof.
  intros Hos. rewrite groupsOf_buildShardGroups, Hos.
  rewrite fmap_imap.
  rewrite (imap_ext _ (const (String.concat " "))) by done.
  rewrite imap_const.
  rewrite concat_sep_groups
    by (apply scheduleItems_groups_nonempty; by destruct os).
  by rewrite scheduleItems_concat by (by destruct os).
Qed.

(** The groups of a platform are numbered from 1 to their total in
    their names, and coverage is collected on the Ubuntu groups only. *)
Theorem matrix_group_names (os : RunsOn) shardKeys allPlatforms (i : nat)
    group :
  groupsOf os (buildShardGroups md5Hex shardKeys allPlatforms) !! i
    = Some group →
  group_name group
  = jobPrefix os +:+ " (" +:+ pretty (S i) +:+ "/"
    +:+ pretty (length (groupsOf os
                          (buildShardGroups md5Hex shardKeys allPlatforms)))
    +:+ ")"
  ∧ (group_coverage group = true ↔ os = UbuntuLatest).
Proof.
  rewrite groupsOf_buildShardGroups.
  destruct (scheduledOn os allPlatforms); [|done].
  rewrite length_imap.
  intros (shards & _ & ->)%list_lookup_imap_Some.
  by destruct os.
Qed.

(** With filtering on, the script schedules the selected shards and
    nothing else; when no shard is selected it reports the empty matrix
    and schedules nothing, rather than every shard. *)
Theorem script_schedules_selection (shards : Registry) (env : Env) text
    changedFiles :
  truthy (SCHEDULE_TEST_SHARDS env) = true →
  FILTER_SHARDS env = Some "true" →
  CHANGED_FILES env = Some text →
  text ≠ "" →
  parseJSON text = Some (FileList changedFiles) →
  let selected := getMatchingShards minimatch shards changedFiles in
  scheduleTestShards minimatch md5Hex parseJSON shards env
  = if decide (selected = []) then ExitMatrixEmpty
    else ExitMatrix
           (buildShardGroups md5Hex selected
              (bool_decide (ALL_PLATFORMS env = Some "true")))
           (testCoverageFiles selected).
Proof.
  intros Hschedule Hfilter Hchanged Htext Hparse selected.
  unfold scheduleTestShards.
  rewrite Hschedule, Hfilter, Hchanged. cbn [negb from_option id].
  destruct text as [|c text]; [done|].
  rewrite bool_decide_eq_true_2 by done. cbn [truthy andb].
  rewrite Hparse. fold selected.
  destruct selected as [|first others] eqn:Hselected; [done|].
  cbn [length Nat.eqb]. rewrite decide_False by done.
  rewrite <-Hselected.
  assert (List.filter (λ key, bool_decide (key ∈ selected)) (objectKeys shards)
          = selected) as ->; [|done].
  unfold selected, getMatchingShards.
  set (test := λ shard : string, bool_decide (shard ∈ _)).
  apply List.filter_ext_in_iff. intros key Hkey.
  apply bool_decide_ext. rewrite list_elem_of_In, filter_In.
  unfold test. rewrite bool_decide_eq_true. tauto.
Qed.


End MatrixFacts.

(** *** The matrix for [testShards] *)

Example matrix_all_platforms_names :
  group_name
    <$> groupsOf MacosLatest
          (buildShardGroups plainDigest (objectKeys testShards) true)
  = ["test-macos (1/4)"; "test-macos (2/4)"; "test-macos (3/4)";
     "test-macos (4/4)"].
Proof. vm_compute. reflexivity. Qed.

Example matrix_macos_shards :
  group_shards
    <$> groupsOf MacosLatest
          (buildShardGroups plainDigest (objectKeys testShards) true)
  = ["datasources-1 datasources-2 managers-1 managers-2";
     "managers-3 managers-4 platform versioning";
     "workers-1 workers-2 workers-3 workers-4";
     "git-1 git-2 util other"].
Proof. vm_compute. reflexivity. Qed.

Lemma matrix_covers_shards_witness :
  String.concat " "
    (group_shards
       <$> groupsOf WindowsLatest
             (buildShardGroups plainDigest (objectKeys testShards) true))
  = String.concat " " (objectKeys testShards).
Proof.
  apply (matrix_covers_shards plainDigest WindowsLatest
           (objectKeys testShards) true).
  reflexivity.
Defined.

Lemma matrix_group_names_witness :
  group_name
    (shardGroupAt plainDigest WindowsLatest 8 2 ["managers-3"; "managers-4"])
  = jobPrefix WindowsLatest +:+ " (" +:+ pretty 3%nat +:+ "/"
    +:+ pretty (length (groupsOf WindowsLatest
                          (buildShardGroups plainDigest
                             (objectKeys testShards) true)))
    +:+ ")"
  ∧ (group_coverage
       (shardGroupAt plainDigest WindowsLatest 8 2
          ["managers-3"; "managers-4"]) = true
     ↔ WindowsLatest = UbuntuLatest).
Proof.
  apply (matrix_group_names plainDigest WindowsLatest
           (objectKeys testShards) true 2).
  vm_compute. reflexivity.
Defined.

Lemma script_schedules_selection_witness :
  scheduleTestShards dirGlob plainDigest
    (fixedReader ["lib/util/git/auth.ts"; "README.md"]) testShards
    (mkEnv (Some "true") (Some "true") (Some "changed") None)
  = ExitMatrix
      [mkShardGroup UbuntuLatest true "test (1/1)" "git-2" "git-2" 10 120000]
      "./coverage-reports/git-2.json".
Proof.
  apply (script_schedules_selection dirGlob plainDigest
           (fixedReader ["lib/util/git/auth.ts"; "README.md"]) testShards
           (mkEnv (Some "true") (Some "true") (Some "changed") None)
           "changed" ["lib/util/git/auth.ts"; "README.md"]);
    [reflexivity|reflexivity|reflexivity|discriminate|reflexivity].
Defined.
